(** * Image Uploader to API: the upload orchestration core

    A shallow embedding of the plugin's TypeScript source: the file
    classifier ([isImageFile], [isPdfFile]), the dot-path extractor
    ([getByPath]), the multipart body built inside [upload], the response
    handling of [upload], the placeholder protocol of [uploadFile], the
    PDF choice modal, the asynchronous chain started by [handleFiles] and
    the merge performed by [loadSettings].

    Conventions.
    - A JavaScript string is a sequence of code units; the model carries the
      8-bit ones, as a [string].  [toLowerCase], [trim] and the UTF-8
      encoder are written out for that range.
    - A decoded JSON value is a [json]; a JavaScript value that may be
      [undefined] is an [option json], [None] standing for [undefined].
    - A JavaScript object used as a map is a [gmap string json], the map
      of its own properties.
    - The host (editor, HTTP primitive, modal, vault, clock) is not part of
      the source: what it hands back to the plugin is an input of the
      model. *)

From Stdlib Require Import ZArith NArith Ascii String List Lia DecimalString
  DecimalPos.
From stdpp Require Import gmap strings list fin_maps.
Import ListNotations.

Set Warnings "-register-all".
#[local] Arguments String.append !s1 s2 : simpl nomatch.
#[local] Open Scope list_scope.
#[local] Open Scope string_scope.

(* ===================================================================== *)
(** * JavaScript strings *)
(* ===================================================================== *)

Module JsString.

Definition CR : ascii := "013"%char.
Definition LF : ascii := "010"%char.
Definition DQUOTE : ascii := "034"%char.
Definition DOLLAR : ascii := "$"%char.
Definition CRLF : string := String CR (String LF "").

(** [c.toLowerCase()] on one 8-bit code unit: [A-Z] and the upper-case
    letters of the Latin-1 block (U+00C0..U+00DE but U+00D7) move by 32,
    every other code unit stays. *)
Definition lower_char (c : ascii) : ascii :=
  let n := N_of_ascii c in
  if ((65 <=? n) && (n <=? 90))%N then ascii_of_N (n + 32)
  else if ((192 <=? n) && (n <=? 222) && negb (n =? 215))%N
       then ascii_of_N (n + 32)
  else c.

Fixpoint toLowerCase (s : string) : string :=
  match s with
  | EmptyString => EmptyString
  | String c s' => String (lower_char c) (toLowerCase s')
  end.

(** [s.split(sep)] for a separator of one code unit.  The result is never
    empty: a string without the separator gives the one-element array
    holding the string itself, the empty string included. *)
Fixpoint split (sep : ascii) (s : string) : list string :=
  match s with
  | EmptyString => [EmptyString]
  | String c s' =>
      if Ascii.eqb c sep then EmptyString :: split sep s'
      else match split sep s' with
           | piece :: rest => String c piece :: rest
           | [] => [String c EmptyString]
           end
  end.

(** [arr.pop()]: the last element, [undefined] on the empty array. *)
Fixpoint pop (arr : list string) : option string :=
  match arr with
  | [] => None
  | [x] => Some x
  | _ :: rest => pop rest
  end.

Fixpoint contains_char (c : ascii) (s : string) : bool :=
  match s with
  | EmptyString => false
  | String d s' => Ascii.eqb d c || contains_char c s'
  end.

(** [s.startsWith(p)], returning what follows the prefix. *)
Fixpoint strip_prefix (p s : string) : option string :=
  match p, s with
  | EmptyString, _ => Some s
  | String a p', String b s' =>
      if Ascii.eqb a b then strip_prefix p' s' else None
  | String _ _, EmptyString => None
  end.

(** The first occurrence of [p] in [s] (as [s.indexOf(p)] finds it):
    the text before it and the text after it. *)
Fixpoint split_first (p s : string) : option (string * string) :=
  match strip_prefix p s with
  | Some post => Some (EmptyString, post)
  | None =>
      match s with
      | EmptyString => None
      | String c s' =>
          match split_first p s' with
          | Some (pre, post) => Some (String c pre, post)
          | None => None
          end
      end
  end.

(** [GetSubstitution] of ECMAScript for a string pattern (no capture
    groups): in the replacement text [$$] stands for a dollar sign, [$&]
    for the matched text, [$`] for the text before the match and [$'] for
    the text after it; any other use of [$] is literal. *)
Fixpoint get_substitution (matched before after repl : string) : string :=
  match repl with
  | EmptyString => EmptyString
  | String c rest =>
      if Ascii.eqb c DOLLAR then
        match rest with
        | String d rest' =>
            if Ascii.eqb d DOLLAR
            then String DOLLAR (get_substitution matched before after rest')
            else if Ascii.eqb d "&"%char
            then matched ++ get_substitution matched before after rest'
            else if Ascii.eqb d "`"%char
            then before ++ get_substitution matched before after rest'
            else if Ascii.eqb d "'"%char
            then after ++ get_substitution matched before after rest'
            else String c (get_substitution matched before after rest)
        | EmptyString => String c EmptyString
        end
      else String c (get_substitution matched before after rest)
  end.

(** [s.replace(p, repl)] with a string pattern: only the first occurrence
    is replaced, and [s] comes back unchanged when there is none. *)
Definition replace (s p repl : string) : string :=
  match split_first p s with
  | Some (before, after) =>
      before ++ get_substitution p before after repl ++ after
  | None => s
  end.

(** White space and line terminators among the 8-bit code units. *)
Definition is_space (c : ascii) : bool :=
  let n := N_of_ascii c in
  ((9 <=? n) && (n <=? 13) || (n =? 32) || (n =? 160))%N.

Fixpoint trim_start (s : string) : string :=
  match s with
  | EmptyString => EmptyString
  | String c s' => if is_space c then trim_start s' else s
  end.

Fixpoint trim_end (s : string) : string :=
  match s with
  | EmptyString => EmptyString
  | String c s' =>
      match trim_end s' with
      | EmptyString => if is_space c then EmptyString else String c EmptyString
      | t => String c t
      end
  end.

Definition trim (s : string) : string := trim_end (trim_start s).

(** Template interpolation of an integer: its decimal digits. *)
Definition of_Z (z : Z) : string := NilZero.string_of_int (Z.to_int z).

(** [n.toString(36)] for a natural number. *)
Definition DIGITS36 : string := "0123456789abcdefghijklmnopqrstuvwxyz".

Definition digit36 (d : N) : ascii :=
  match String.get (N.to_nat d) DIGITS36 with
  | Some c => c
  | None => "0"%char
  end.

Fixpoint toString36_loop (fuel : nat) (n : N) (acc : string) : string :=
  match fuel with
  | O => acc
  | S fuel' =>
      if (n =? 0)%N then acc
      else toString36_loop fuel' (n / 36)%N (String (digit36 (n mod 36)%N) acc)
  end.

Definition toString36 (n : N) : string :=
  if (n =? 0)%N then "0" else toString36_loop (S (N.to_nat (N.log2 n))) n "".

End JsString.

(* ===================================================================== *)
(** * Files and the classifier *)
(* ===================================================================== *)

(** The part of a DOM [File] the plugin reads: [file.name], [file.type]
    (empty when the browser knows no type) and the bytes delivered by
    [file.arrayBuffer()]. *)
Record File : Type := mkFile {
  name : string;
  type : string;
  arrayBuffer : list Byte.byte
}.

Definition IMAGE_EXTENSIONS : list string :=
  ["jpg"; "jpeg"; "png"; "gif"; "webp"; "svg"; "avif"; "ico"].

(** [file.name.split(".").pop()?.toLowerCase() ?? ""] *)
Definition extension (file_name : string) : string :=
  match JsString.pop (JsString.split "."%char file_name) with
  | Some ext => JsString.toLowerCase ext
  | None => ""
  end.

(** [IMAGE_EXTENSIONS.includes(ext)] *)
Definition includes (arr : list string) (x : string) : bool :=
  existsb (String.eqb x) arr.

Definition isPdfFile (file : File) : bool :=
  String.eqb (extension (name file)) "pdf".

Definition isImageFile (file : File) : bool :=
  includes IMAGE_EXTENSIONS (extension (name file)).

Inductive Category : Type := Image | Pdf | Other.

(** The category a file falls in, as [handleFiles] partitions a batch. *)
Definition classify (file : File) : Category :=
  if isImageFile file then Image
  else if isPdfFile file then Pdf
  else Other.

(** The classifier as the specification words it: the extension is what
    follows the last ['.'], and a name without ['.'] has the empty
    extension. *)
Module SpecClassifier.

Fixpoint after_last_dot (s : string) : option string :=
  match s with
  | EmptyString => None
  | String c s' =>
      match after_last_dot s' with
      | Some e => Some e
      | None => if Ascii.eqb c "."%char then Some s' else None
      end
  end.

Definition extension (file_name : string) : string :=
  match after_last_dot file_name with
  | Some e => JsString.toLowerCase e
  | None => ""
  end.

Definition classify (file_name : string) : Category :=
  let ext := extension file_name in
  if includes IMAGE_EXTENSIONS ext then Image
  else if String.eqb ext "pdf" then Pdf
  else Other.

End SpecClassifier.

(* ===================================================================== *)
(** * Decoded JSON and the dot-path extractor *)
(* ===================================================================== *)

(** A value produced by JSON decoding.  The code only ever tests a number
    for being zero; numbers are carried as integers. *)
Inductive json : Type :=
| JNull
| JBool (b : bool)
| JNumber (n : Z)
| JString (s : string)
| JArray (items : list json)
| JObject (props : gmap string json).

(** [typeof v]; [None] is [undefined]. *)
Definition typeof (v : option json) : string :=
  match v with
  | None => "undefined"
  | Some JNull => "object"
  | Some (JBool _) => "boolean"
  | Some (JNumber _) => "number"
  | Some (JString _) => "string"
  | Some (JArray _) => "object"
  | Some (JObject _) => "object"
  end.

(** [v == null] *)
Definition is_nullish (v : option json) : bool :=
  match v with
  | None | Some JNull => true
  | Some _ => false
  end.

(** [!v] *)
Definition falsy (v : option json) : bool :=
  match v with
  | None | Some JNull => true
  | Some (JBool b) => negb b
  | Some (JNumber n) => (n =? 0)%Z
  | Some (JString s) => String.eqb s ""
  | Some (JArray _) | Some (JObject _) => false
  end.

(** The array index a property key denotes, when it is the canonical
    decimal spelling of a natural number. *)
Definition array_index (key : string) : option nat :=
  match NilEmpty.uint_of_string key with
  | Some u =>
      let i := Nat.of_uint u in
      if String.eqb (JsString.of_Z (Z.of_nat i)) key then Some i else None
  | None => None
  end.

(** [current[key]] on a decoded value of type ["object"]: the own
    properties of an object, the elements and the length of an array.
    What an object or an array inherits from the built-in prototypes
    (functions and the prototype objects, never a string) is not decoded
    data and is not carried by [json]; a key no own property answers is
    read as [undefined]. *)
Definition get_property (current : json) (key : string) : option json :=
  match current with
  | JObject props => props !! key
  | JArray items =>
      if String.eqb key "length" then Some (JNumber (Z.of_nat (length items)))
      else match array_index key with
           | Some i => items !! i
           | None => None
           end
  | _ => None
  end.

(** The loop of [getByPath]: an early [return undefined] as soon as the
    current value is nullish or not of type ["object"]. *)
Fixpoint getByPath_loop (current : option json) (keys : list string)
  : option json :=
  match keys with
  | [] => current
  | key :: keys' =>
      if is_nullish current || negb (String.eqb (typeof current) "object")
      then None
      else match current with
           | Some c => getByPath_loop (get_property c key) keys'
           | None => None
           end
  end.

Definition getByPath (obj : option json) (path : string) : option json :=
  getByPath_loop obj (JsString.split "."%char path).

(* ===================================================================== *)
(** * Settings *)
(* ===================================================================== *)

Record HeaderEntry : Type := mkHeader { key : string; value : string }.

Inductive PdfHandling : Type := PdfDefault | PdfUpload | PdfAsk.

Record ImageUploaderSettings : Type := mkSettings {
  apiEndpoint : string;
  headers : list HeaderEntry;
  fileFieldName : string;
  imageUrlPath : string;
  pdfHandling : PdfHandling
}.

Definition DEFAULT_SETTINGS : ImageUploaderSettings := {|
  apiEndpoint := "";
  headers := [];
  fileFieldName := "file";
  imageUrlPath := "";
  pdfHandling := PdfDefault
|}.

(** The settings as the object they are at run time, which is what
    [Object.assign] and the persisted data deal with. *)
Definition pdfHandling_tag (p : PdfHandling) : string :=
  match p with
  | PdfDefault => "default"
  | PdfUpload => "upload"
  | PdfAsk => "ask"
  end.

Definition header_object (h : HeaderEntry) : json :=
  JObject (<["key" := JString (key h)]> (<["value" := JString (value h)]> ∅)).

Definition settings_object (s : ImageUploaderSettings) : gmap string json :=
  <["apiEndpoint" := JString (apiEndpoint s)]>
  (<["headers" := JArray (map header_object (headers s))]>
  (<["fileFieldName" := JString (fileFieldName s)]>
  (<["imageUrlPath" := JString (imageUrlPath s)]>
  (<["pdfHandling" := JString (pdfHandling_tag (pdfHandling s))]> ∅)))).

(** The own enumerable string-keyed properties [Object.assign] copies
    from a source: all of an object's, the elements of an array under
    their indices, the code units of a string under theirs, and none for
    [null], [undefined], a boolean or a number. *)
Definition indexed {A} (f : A → json) (l : list A) : gmap string json :=
  list_to_map (imap (fun i x => (JsString.of_Z (Z.of_nat i), f x)) l).

Definition own_enumerable (source : option json) : gmap string json :=
  match source with
  | Some (JObject props) => props
  | Some (JArray items) => indexed id items
  | Some (JString s) =>
      indexed (fun c => JString (String c "")) (list_ascii_of_string s)
  | _ => ∅
  end.

(** [Object.assign(target, ...sources)]: sources are copied in order, a
    later one overwriting the keys it shares with what is already there.
    Each property is written by an ordinary assignment to the target, and
    on a plain object the key [__proto__] names the accessor of
    [Object.prototype]: its setter takes the value as the prototype when
    it is an object or [null] and ignores it otherwise, and in neither
    case does the target get an own property of that name. *)
Definition Object_assign (target : gmap string json)
    (sources : list (option json)) : gmap string json :=
  foldl (fun acc source => delete "__proto__" (own_enumerable source) ∪ acc)
        target sources.

(** [loadSettings]: [Object.assign({}, DEFAULT_SETTINGS, await loadData())];
    [data] is what [loadData] resolved to, [null] when nothing was saved. *)
Definition loadSettings (data : option json) : gmap string json :=
  Object_assign ∅ [Some (JObject (settings_object DEFAULT_SETTINGS)); data].

(** The five fields of the settings interface. *)
Definition SETTINGS_FIELDS : list string :=
  ["apiEndpoint"; "headers"; "fileFieldName"; "imageUrlPath"; "pdfHandling"].

(* ===================================================================== *)
(** * The multipart body *)
(* ===================================================================== *)

Definition bytes : Type := list Byte.byte.

Module Utf8.

Definition byte_of_N (n : N) : Byte.byte :=
  match Byte.of_N n with
  | Some b => b
  | None => Byte.x00
  end.

(** [TextEncoder.encode] on one code unit below U+0100: one byte up to
    U+007F, the two-byte form [110xxxxx 10xxxxxx] above. *)
Definition encode_unit (c : ascii) : bytes :=
  let n := N_of_ascii c in
  if (n <? 128)%N then [byte_of_N n]
  else [byte_of_N (192 + n / 64); byte_of_N (128 + n mod 64)].

Fixpoint encode (s : string) : bytes :=
  match s with
  | EmptyString => []
  | String c s' => (encode_unit c ++ encode s')%list
  end.

End Utf8.

Module Multipart.

(** ["----ObsidianUploader" + Date.now().toString(36)] *)
Definition boundary (now : N) : string :=
  "----ObsidianUploader" ++ JsString.toString36 now.

(** [file.type || "application/octet-stream"] *)
Definition declared_type (file : File) : string :=
  if String.eqb (type file) "" then "application/octet-stream" else type file.

Definition disposition_line (fieldName : string) (file : File) : string :=
  "Content-Disposition: form-data; name=" ++ String JsString.DQUOTE fieldName
    ++ String JsString.DQUOTE "; filename="
    ++ String JsString.DQUOTE (name file) ++ String JsString.DQUOTE "".

Definition type_line (file : File) : string :=
  "Content-Type: " ++ declared_type file.

Definition partHeader (boundary fieldName : string) (file : File) : string :=
  "--" ++ boundary ++ JsString.CRLF
    ++ disposition_line fieldName file ++ JsString.CRLF
    ++ type_line file ++ JsString.CRLF ++ JsString.CRLF.

Definition partFooter (boundary : string) : string :=
  JsString.CRLF ++ "--" ++ boundary ++ "--" ++ JsString.CRLF.

(** The [Uint8Array] the three pieces are copied into, one after the
    other. *)
Definition body (boundary fieldName : string) (file : File) : bytes :=
  (Utf8.encode (partHeader boundary fieldName file)
     ++ arrayBuffer file
     ++ Utf8.encode (partFooter boundary))%list.

Definition contentType (boundary : string) : string :=
  "multipart/form-data; boundary=" ++ boundary.

End Multipart.

(* ===================================================================== *)
(** * The upload client *)
(* ===================================================================== *)

(** The argument of [requestUrl]. *)
Record RequestUrlParam : Type := mkRequest {
  url : string;
  method : string;
  request_headers : gmap string string;
  request_body : bytes
}.

(** [headers[k] = v] on the plain object [upload] starts from, [v] a
    string: an own property is written, except under the key [__proto__],
    which names the accessor of [Object.prototype]; its setter ignores a
    string, so the object is left as it was. *)
Definition assign_header (k v : string) (headers : gmap string string)
  : gmap string string :=
  if String.eqb k "__proto__" then headers else <[k := v]> headers.

(** The header object of [upload]: the configured entries whose trimmed
    key is not empty, assigned in order, a later entry overwriting an
    earlier one with the same trimmed key. *)
Definition configured_headers (entries : list HeaderEntry)
  : gmap string string :=
  foldl (fun acc entry =>
           if String.eqb (JsString.trim (key entry)) "" then acc
           else assign_header (JsString.trim (key entry)) (value entry) acc)
        ∅ entries.

(** [this.settings.fileFieldName.trim() || "file"] *)
Definition effective_field_name (settings : ImageUploaderSettings) : string :=
  if String.eqb (JsString.trim (fileFieldName settings)) "" then "file"
  else JsString.trim (fileFieldName settings).

(** The request [upload] issues; [now] is the reading of [Date.now()]. *)
Definition upload_request (settings : ImageUploaderSettings) (now : N)
    (file : File) : RequestUrlParam :=
  let boundary := Multipart.boundary now in
  {| url := apiEndpoint settings;
     method := "POST";
     request_headers :=
       <["Content-Type" := Multipart.contentType boundary]>
         (configured_headers (headers settings));
     request_body :=
       Multipart.body boundary (effective_field_name settings) file |}.

(** What reading [response.json] gives: the decoded body, or the error the
    getter throws on a body that is not JSON. *)
Inductive ResponseJson : Type :=
| Decoded (data : json)
| NotJson (message : string).

Record RequestUrlResponse : Type := mkResponse {
  status : Z;
  response_json : ResponseJson
}.

(** How the promise returned by [requestUrl] settles. *)
Inductive RequestOutcome : Type :=
| Responded (response : RequestUrlResponse)
| Rejected (message : string).

(** How the promise returned by [upload] settles: resolved with the URL,
    or rejected with an error carrying a message. *)
Inductive UploadResult : Type :=
| Success (url : string)
| Failure (reason : string).

Definition status_message (code : Z) : string :=
  "Server responded with status " ++ JsString.of_Z code.

Definition path_message (path : string) : string :=
  "Could not extract URL from response using path "
    ++ String JsString.DQUOTE path ++ String JsString.DQUOTE "".

Definition as_string (v : option json) : string :=
  match v with
  | Some (JString s) => s
  | _ => ""
  end.

(** [upload] from [const data = response.json] on. *)
Definition extract_url (settings : ImageUploaderSettings)
    (body : ResponseJson) : UploadResult :=
  match body with
  | NotJson message => Failure message
  | Decoded data =>
      let url := getByPath (Some data) (imageUrlPath settings) in
      if falsy url || negb (String.eqb (typeof url) "string")
      then Failure (path_message (imageUrlPath settings))
      else Success (as_string url)
  end.

(** [upload] from the status test on. *)
Definition handle_response (settings : ImageUploaderSettings)
    (response : RequestUrlResponse) : UploadResult :=
  if (status response <? 200)%Z || (status response >=? 300)%Z
  then Failure (status_message (status response))
  else extract_url settings (response_json response).

(** [upload] once [requestUrl] has settled. *)
Definition upload_result (settings : ImageUploaderSettings)
    (outcome : RequestOutcome) : UploadResult :=
  match outcome with
  | Rejected message => Failure message
  | Responded response => handle_response settings response
  end.

(* ===================================================================== *)
(** * The editor and the host state *)
(* ===================================================================== *)

(** The three methods of the host's [Editor] the plugin calls. *)
Class Editor (E : Type) : Type := {
  getValue : E → string;
  setValue : string → E → E;
  replaceSelection : string → E → E
}.

(** A plain text buffer with a caret and no selection: one host editor,
    used to run the model.  Where the caret lands after [setValue] is the
    host's business; this one puts it at the end. *)
Record Buffer : Type := mkBuffer { before : string; after : string }.

#[global] Instance Buffer_editor : Editor Buffer := {|
  getValue b := before b ++ after b;
  setValue v _ := {| before := v; after := "" |};
  replaceSelection s b := {| before := before b ++ s; after := after b |}
|}.

(** What the plugin has done to the host so far. *)
Record World (E : Type) : Type := mkWorld {
  editor : E;
  notices : list string;
  requests : list RequestUrlParam;
  attachments : list (string * bytes);
  open_modals : nat
}.
Arguments mkWorld {E}.
Arguments editor {E}.
Arguments notices {E}.
Arguments requests {E}.
Arguments attachments {E}.
Arguments open_modals {E}.

(* ===================================================================== *)
(** * The PDF choice modal *)
(* ===================================================================== *)

Module PdfUploadModal.

(** The promise created by [askPdfUpload]: pending, or resolved. *)
Definition Promise : Type := option bool.

(** The [resolve] function of a promise: the first call settles it, a
    later call does nothing. *)
Definition resolve (v : bool) (p : Promise) : Promise :=
  match p with
  | None => Some v
  | Some _ => p
  end.

(** [onClose]: [this.resolve(false)]. *)
Definition onClose (p : Promise) : Promise := resolve false p.

(** The host's [close()] runs [onClose]. *)
Definition close (p : Promise) : Promise := onClose p.

(** What the user can do with the open modal. *)
Inductive Action : Type :=
| ClickUpload
| ClickSaveLocally
| CloseWithoutChoice.

Definition act (a : Action) (p : Promise) : Promise :=
  match a with
  | ClickUpload => close (resolve true p)
  | ClickSaveLocally => close (resolve false p)
  | CloseWithoutChoice => close p
  end.

End PdfUploadModal.

(** The promise of [askPdfUpload] after the user acted on the modal. *)
Definition askPdfUpload (a : PdfUploadModal.Action) : PdfUploadModal.Promise :=
  PdfUploadModal.act a None.

(* ===================================================================== *)
(** * The placeholder protocol and the asynchronous chain *)
(* ===================================================================== *)

Definition placeholder (file : File) : string :=
  "![Uploading " ++ name file ++ "...]()".

Definition markdown (file : File) (url : string) : string :=
  if isImageFile file then "![](" ++ url ++ ")"
  else "[" ++ name file ++ "](" ++ url ++ ")".

Definition shouldIntercept (settings : ImageUploaderSettings) (file : File)
  : bool :=
  if isImageFile file then true
  else if isPdfFile file
          && negb (String.eqb (pdfHandling_tag (pdfHandling settings)) "default")
       then true
  else false.

(** Where [upload] is suspended. *)
Inductive UploadWait : Type :=
| ReadingFile        (* await file.arrayBuffer() *)
| AwaitingResponse.  (* await requestUrl(...) *)

(** The asynchronous function started by [handleFiles], at one of its
    suspension points, with the files it has not reached yet. *)
Inductive Chain : Type :=
| Finished
| UploadingImage (at_ : UploadWait) (file : File) (images pdfs : list File)
| AskingPdf (file : File) (pdfs : list File)
| UploadingPdf (at_ : UploadWait) (file : File) (pdfs : list File)
| SavingPdf (file : File) (pdfs : list File).

(** What the host does to resume a suspended chain. *)
Inductive Resumption : Type :=
| FileRead (now : N)
| FileUnreadable (message : string)
| RequestSettled (outcome : RequestOutcome)
| ModalAction (a : PdfUploadModal.Action)
| AttachmentStored (created_name : string)
| AttachmentFailed (message : string).

Section Orchestrator.

Context {E : Type} `{Editor E}.
Variable settings : ImageUploaderSettings.

Definition with_editor (e : E) (w : World E) : World E :=
  mkWorld e (notices w) (requests w) (attachments w) (open_modals w).

(** [uploadFile] up to its first suspension: the placeholder goes in at
    the selection, then [upload] starts reading the file. *)
Definition uploadFile_start (file : File) (w : World E) : World E :=
  with_editor (replaceSelection (placeholder file) (editor w)) w.

(** [upload] between reading the file and the HTTP call. *)
Definition upload_send (now : N) (file : File) (w : World E) : World E :=
  mkWorld (editor w) (notices w)
          (requests w ++ [upload_request settings now file])%list
          (attachments w) (open_modals w).

(** [uploadFile] once [upload] has settled: the [try] branch on success,
    the [catch] branch on failure. *)
Definition uploadFile_finish (file : File) (result : UploadResult)
    (w : World E) : World E :=
  match result with
  | Success url =>
      let content := getValue (editor w) in
      let newContent :=
        JsString.replace content (placeholder file) (markdown file url) in
      with_editor (setValue newContent (editor w)) w
  | Failure message =>
      let content := getValue (editor w) in
      mkWorld (setValue (JsString.replace content (placeholder file) "")
                        (editor w))
              (notices w ++ ["Image upload failed: " ++ message]%string)%list
              (requests w) (attachments w) (open_modals w)
  end.

(** [savePdfLocally] once the vault has created the file. *)
Definition savePdfLocally_finish (file : File) (created_name : string)
    (w : World E) : World E :=
  mkWorld (replaceSelection ("![[" ++ created_name ++ "]]") (editor w))
          (notices w) (requests w)
          (attachments w ++ [(created_name, arrayBuffer file)])%list
          (open_modals w).

Definition open_modal (w : World E) : World E :=
  mkWorld (editor w) (notices w) (requests w) (attachments w)
          (S (open_modals w)).

Definition close_modal (w : World E) : World E :=
  mkWorld (editor w) (notices w) (requests w) (attachments w)
          (pred (open_modals w)).

(** The [for (const pdf of pdfs)] loop, run to its next suspension. *)
Definition start_pdfs (pdfs : list File) (w : World E) : World E * Chain :=
  match pdfs with
  | [] => (w, Finished)
  | pdf :: rest =>
      match pdfHandling settings with
      | PdfAsk => (open_modal w, AskingPdf pdf rest)
      | PdfUpload => (uploadFile_start pdf w, UploadingPdf ReadingFile pdf rest)
      | PdfDefault => (w, SavingPdf pdf rest)
      end
  end.

(** [uploadFiles]: [for (const file of files) await this.uploadFile(...)],
    run to its next suspension, then the PDF loop. *)
Definition start_images (images pdfs : list File) (w : World E)
  : World E * Chain :=
  match images with
  | [] => start_pdfs pdfs w
  | file :: rest => (uploadFile_start file w,
                     UploadingImage ReadingFile file rest pdfs)
  end.

(** One resumption of a suspended chain; [None] when the chain is not
    waiting for that. *)
Definition resume (c : Chain) (r : Resumption) (w : World E)
  : option (World E * Chain) :=
  match c, r with
  | UploadingImage ReadingFile file images pdfs, FileRead now =>
      Some (upload_send now file w,
            UploadingImage AwaitingResponse file images pdfs)
  | UploadingImage ReadingFile file images pdfs, FileUnreadable message =>
      Some (start_images images pdfs
              (uploadFile_finish file (Failure message) w))
  | UploadingImage AwaitingResponse file images pdfs, RequestSettled outcome =>
      Some (start_images images pdfs
              (uploadFile_finish file (upload_result settings outcome) w))
  | AskingPdf file pdfs, ModalAction a =>
      match askPdfUpload a with
      | Some true =>
          Some (uploadFile_start file (close_modal w),
                UploadingPdf ReadingFile file pdfs)
      | Some false => Some (close_modal w, SavingPdf file pdfs)
      | None => Some (w, AskingPdf file pdfs)
      end
  | UploadingPdf ReadingFile file pdfs, FileRead now =>
      Some (upload_send now file w, UploadingPdf AwaitingResponse file pdfs)
  | UploadingPdf ReadingFile file pdfs, FileUnreadable message =>
      Some (start_pdfs pdfs (uploadFile_finish file (Failure message) w))
  | UploadingPdf AwaitingResponse file pdfs, RequestSettled outcome =>
      Some (start_pdfs pdfs
              (uploadFile_finish file (upload_result settings outcome) w))
  | SavingPdf file pdfs, AttachmentStored created_name =>
      Some (start_pdfs pdfs (savePdfLocally_finish file created_name w))
  | SavingPdf file pdfs, AttachmentFailed _ => Some (w, Finished)
  | _, _ => None
  end.

(** [handleFiles]: whether the event was suppressed, and the chain it
    started, run to its first suspension.  [view] tells whether a
    Markdown view is active. *)
Definition handleFiles (view : bool) (fileList : option (list File))
    (w : World E) : bool * (World E * Chain) :=
  match fileList with
  | None => (false, (w, Finished))
  | Some allFiles =>
      if Nat.eqb (length allFiles) 0 then (false, (w, Finished))
      else
        let intercepted := List.filter (shouldIntercept settings) allFiles in
        if Nat.eqb (length intercepted) 0 then (false, (w, Finished))
        else if negb view then (false, (w, Finished))
        else
          let images := List.filter isImageFile intercepted in
          let pdfs := List.filter isPdfFile intercepted in
          (true, start_images images pdfs w)
  end.

(** A chain driven by a sequence of resumptions. *)
Fixpoint run (c : Chain) (rs : list Resumption) (w : World E)
  : option (World E * Chain) :=
  match rs with
  | [] => Some (w, c)
  | r :: rs' =>
      match resume c r w with
      | Some (w', c') => run c' rs' w'
      | None => None
      end
  end.

End Orchestrator.

(** The file whose upload a chain has in flight, if any, and the
    placeholders in flight over the chains working on one document. *)
Definition in_flight (c : Chain) : option File :=
  match c with
  | UploadingImage _ file _ _ => Some file
  | UploadingPdf _ file _ => Some file
  | _ => None
  end.

Definition files_in_flight (chains : list Chain) : list File :=
  omap in_flight chains.

Definition active_placeholders (chains : list Chain) : list string :=
  map placeholder (files_in_flight chains).

(** The number of uploads a chain has started and not yet settled. *)
Definition dispatched (c : Chain) : nat :=
  match in_flight c with
  | Some _ => 1
  | None => 0
  end.

Definition initial_world : World Buffer :=
  mkWorld (mkBuffer "" "") [] [] [] 0.


(** The [uploadFiles] of [src/main.ts], which does not await: every call
    of [uploadFile] runs to its first suspension and the loop goes on, so
    each file gets a chain of its own. *)
Module MainTs.

Definition uploadFiles {E : Type} `{Editor E} (files : list File)
    (w : World E) : World E * list Chain :=
  (foldl (fun acc file => uploadFile_start file acc) w files,
   map (fun file => UploadingImage ReadingFile file [] []) files).

End MainTs.

(* ===================================================================== *)
(** * A reference multipart reader *)
(* ===================================================================== *)

(** Byte sequences: prefix test, first occurrence, occurrence. *)
Module Bytes.

Fixpoint contains (b : Byte.byte) (s : bytes) : bool :=
  match s with
  | [] => false
  | x :: s' => Byte.eqb x b || contains b s'
  end.

Fixpoint strip_prefix (p s : bytes) : option bytes :=
  match p, s with
  | [], _ => Some s
  | a :: p', b :: s' => if Byte.eqb a b then strip_prefix p' s' else None
  | _ :: _, [] => None
  end.

Fixpoint split_first (p s : bytes) : option (bytes * bytes) :=
  match strip_prefix p s with
  | Some post => Some ([], post)
  | None =>
      match s with
      | [] => None
      | x :: s' =>
          match split_first p s' with
          | Some (pre, post) => Some (x :: pre, post)
          | None => None
          end
      end
  end.

(** Whether [p] occurs somewhere in [s]. *)
Fixpoint occurs (p s : bytes) : bool :=
  match strip_prefix p s with
  | Some _ => true
  | None =>
      match s with
      | [] => false
      | _ :: s' => occurs p s'
      end
  end.

End Bytes.

(** The decoder for what [Utf8.encode] produces: one-byte sequences and
    the two-byte sequences of U+0080..U+00FF; anything else is outside the
    code units the model carries and is refused. *)
Fixpoint utf8_decode (s : bytes) : option string :=
  match s with
  | [] => Some EmptyString
  | b :: rest =>
      let n := Byte.to_N b in
      if (n <? 128)%N then
        match utf8_decode rest with
        | Some t => Some (String (ascii_of_N n) t)
        | None => None
        end
      else if ((194 <=? n) && (n <=? 195))%N then
        match rest with
        | c :: rest' =>
            let m := Byte.to_N c in
            if ((128 <=? m) && (m <? 192))%N then
              match utf8_decode rest' with
              | Some t =>
                  Some (String (ascii_of_N ((n - 192) * 64 + (m - 128))) t)
              | None => None
              end
            else None
        | [] => None
        end
      else None
  end.

(** A reader of a [multipart/form-data] body holding one file part, after
    RFC 7578 and RFC 2046: the boundary comes from the [Content-Type]
    header value; the body opens with the dash-boundary line; header lines
    end with CRLF and stop at the first empty line; the content runs up to
    the first delimiter, a CRLF followed by the dash-boundary, where the
    CRLF may be the one that ends the empty line, so that a content
    opening with the dash-boundary is empty; the closing [--] must follow
    the delimiter.  The parameters of [Content-Disposition] are quoted
    strings: a backslash quotes the byte behind it, the next double quote
    that is not quoted ends the string, and the escapes [%0A], [%0D] and
    [%22] of the form encoding stand for LF, CR and the double quote. *)
Module MultipartReader.

Record Part : Type := mkPart {
  part_name : string;
  part_filename : string;
  part_type : string;
  part_data : bytes
}.

Definition crlf : bytes := Utf8.encode JsString.CRLF.
Definition dquote : bytes := Utf8.encode (String JsString.DQUOTE "").

Fixpoint read_headers (fuel : nat) (s : bytes) : option (list bytes * bytes) :=
  match fuel with
  | O => None
  | S fuel' =>
      match Bytes.split_first crlf s with
      | Some ([], rest) => Some ([], rest)
      | Some (line, rest) =>
          match read_headers fuel' rest with
          | Some (lines, rest') => Some (line :: lines, rest')
          | None => None
          end
      | None => None
      end
  end.

(** The value of the first header line carrying the given field name. *)
Fixpoint header_value (field : string) (lines : list bytes) : option bytes :=
  match lines with
  | [] => None
  | line :: lines' =>
      match Bytes.strip_prefix (Utf8.encode (field ++ ": ")) line with
      | Some v => Some v
      | None => header_value field lines'
      end
  end.

(** A quoted string, read from behind its opening quote: the text up to
    the closing quote, a backslash quoting the byte behind it, and what
    follows the closing quote. *)
Fixpoint read_quoted (s : bytes) : option (bytes * bytes) :=
  match s with
  | [] => None
  | b :: s' =>
      if Byte.eqb b Byte.x22 then Some ([], s')
      else if Byte.eqb b Byte.x5c then
        match s' with
        | c :: s'' =>
            match read_quoted s'' with
            | Some (v, rest) => Some (c :: v, rest)
            | None => None
            end
        | [] => None
        end
      else
        match read_quoted s' with
        | Some (v, rest) => Some (b :: v, rest)
        | None => None
        end
  end.

(** The byte the two hexadecimal digits behind a percent sign stand for,
    for the three escapes of the form encoding. *)
Definition escaped (h1 h2 : Byte.byte) : option Byte.byte :=
  if Byte.eqb h1 Byte.x30 && (Byte.eqb h2 Byte.x41 || Byte.eqb h2 Byte.x61)
  then Some Byte.x0a
  else if Byte.eqb h1 Byte.x30
          && (Byte.eqb h2 Byte.x44 || Byte.eqb h2 Byte.x64)
  then Some Byte.x0d
  else if Byte.eqb h1 Byte.x32 && Byte.eqb h2 Byte.x32 then Some Byte.x22
  else None.

Fixpoint percent_decode (s : bytes) : bytes :=
  match s with
  | [] => []
  | b :: r =>
      match r with
      | h1 :: h2 :: r' =>
          if Byte.eqb b Byte.x25 then
            match escaped h1 h2 with
            | Some c => c :: percent_decode r'
            | None => b :: percent_decode r
            end
          else b :: percent_decode r
      | _ => b :: percent_decode r
      end
  end.

(** [form-data; name="<field>"; filename="<file name>"] *)
Definition read_disposition (v : bytes) : option (bytes * bytes) :=
  match Bytes.strip_prefix (Utf8.encode "form-data; name=" ++ dquote)%list v with
  | Some r1 =>
      match read_quoted r1 with
      | Some (field, r2) =>
          match Bytes.strip_prefix
                  (Utf8.encode "; filename=" ++ dquote)%list r2 with
          | Some r3 =>
              match read_quoted r3 with
              | Some (filename, []) =>
                  Some (percent_decode field, percent_decode filename)
              | _ => None
              end
          | None => None
          end
      | None => None
      end
  | None => None
  end.

(** The content of the part, read from behind the empty line, and what
    follows the delimiter that ends it. *)
Definition read_content (dash : bytes) (s : bytes) : option (bytes * bytes) :=
  match Bytes.strip_prefix dash s with
  | Some rest => Some ([], rest)
  | None => Bytes.split_first (crlf ++ dash)%list s
  end.

Definition decode (contentType : string) (body : bytes) : option Part :=
  match JsString.strip_prefix "multipart/form-data; boundary=" contentType with
  | None => None
  | Some boundary =>
      let dash := Utf8.encode ("--" ++ boundary) in
      match Bytes.strip_prefix (dash ++ crlf)%list body with
      | None => None
      | Some r0 =>
          match read_headers (S (length r0)) r0 with
          | None => None
          | Some (lines, r1) =>
              match read_content dash r1 with
              | None => None
              | Some (data, r2) =>
                  match Bytes.strip_prefix (Utf8.encode "--") r2,
                        header_value "Content-Disposition" lines,
                        header_value "Content-Type" lines with
                  | Some _, Some disposition, Some ctype =>
                      match read_disposition disposition with
                      | Some (field, filename) =>
                          match utf8_decode field, utf8_decode filename,
                                utf8_decode ctype with
                          | Some f, Some n, Some t => Some (mkPart f n t data)
                          | _, _, _ => None
                          end
                      | None => None
                      end
                  | _, _, _ => None
                  end
              end
          end
      end
  end.

End MultipartReader.








(* ===================================================================== *)
(** * The rest of the plugin *)
(* ===================================================================== *)

(** The three lists [handleFiles] computes from the files of an event. *)
Definition intercepted_files (settings : ImageUploaderSettings)
    (allFiles : list File) : list File :=
  List.filter (shouldIntercept settings) allFiles.

Definition batch_images (settings : ImageUploaderSettings)
    (allFiles : list File) : list File :=
  List.filter isImageFile (intercepted_files settings allFiles).

Definition batch_pdfs (settings : ImageUploaderSettings)
    (allFiles : list File) : list File :=
  List.filter isPdfFile (intercepted_files settings allFiles).

(** Whether a header row is the one a header name is taken from: its
    trimmed key is that name, and the name is neither empty nor
    [__proto__]. *)
Definition header_row_for (header_name : string) (entry : HeaderEntry) : bool :=
  String.eqb (JsString.trim (key entry)) header_name
  && negb (String.eqb header_name "")
  && negb (String.eqb header_name "__proto__").

(** The header rows of the settings tab: the button "Add header"
    ([headers.push({ key: "", value: "" })]), the trash button of row [i]
    ([headers.splice(i, 1)]) and the two text fields of row [i]
    ([headers[i].key = value], [headers[i].value = value]). *)
Module SettingTab.

Definition addHeader (rows : list HeaderEntry) : list HeaderEntry :=
  (rows ++ [mkHeader "" ""])%list.

Definition removeHeader (i : nat) (rows : list HeaderEntry)
  : list HeaderEntry :=
  delete i rows.

Definition setHeaderKey (i : nat) (v : string) (rows : list HeaderEntry)
  : list HeaderEntry :=
  alter (fun entry => mkHeader v (value entry)) i rows.

Definition setHeaderValue (i : nat) (v : string) (rows : list HeaderEntry)
  : list HeaderEntry :=
  alter (fun entry => mkHeader (key entry) v) i rows.

End SettingTab.

(** [s.indexOf(p)]: where the first occurrence of [p] starts. *)
Definition indexOf (p s : string) : option nat :=
  match JsString.split_first p s with
  | Some (pre, _) => Some (String.length pre)
  | None => None
  end.

(** The host's answers to a run of uploads: for each file the clock
    reading once its bytes are read, then the outcome of its request. *)
Definition answers (now : File → N) (outcome : File → RequestOutcome)
    (files : list File) : list Resumption :=
  flat_map (fun file => [FileRead (now file); RequestSettled (outcome file)])
           files.

(** The notices these outcomes lead to: one for each failed upload. *)
Definition failure_notices (settings : ImageUploaderSettings)
    (outcome : File → RequestOutcome) (files : list File) : list string :=
  omap (fun file =>
          match upload_result settings (outcome file) with
          | Failure message => Some ("Image upload failed: " ++ message)
          | Success _ => None
          end) files.

(** Reading a number written in base 36 (the inverse of [toString(36)] on
    its digits). *)
Fixpoint digit36_index (c : ascii) (alphabet : string) : N :=
  match alphabet with
  | EmptyString => 0
  | String d rest =>
      if Ascii.eqb c d then 0 else N.succ (digit36_index c rest)
  end.

Fixpoint parse36_loop (s : string) (acc : N) : N :=
  match s with
  | EmptyString => acc
  | String c s' =>
      parse36_loop s' (acc * 36 + digit36_index c JsString.DIGITS36)
  end.

Definition parse36 (s : string) : N := parse36_loop s 0.

(** The drop and paste handlers of [src/main.ts], which are the same
    code: only images are taken, and [uploadFiles] starts them all. *)
Module MainTsEvents.

Definition handler {E : Type} `{Editor E} (view : bool)
    (fileList : option (list File)) (w : World E)
  : bool * (World E * list Chain) :=
  match fileList with
  | None => (false, (w, []))
  | Some files =>
      if Nat.eqb (length files) 0 then (false, (w, []))
      else
        let imageFiles := List.filter isImageFile files in
        if Nat.eqb (length imageFiles) 0 then (false, (w, []))
        else if negb view then (false, (w, []))
        else (true, MainTs.uploadFiles imageFiles w)
  end.

End MainTsEvents.

(** A text made of white space only. *)
Fixpoint all_space (s : string) : bool :=
  match s with
  | EmptyString => true
  | String c s' => JsString.is_space c && all_space s'
  end.

(** A header row that sends nothing: its key is empty once trimmed. *)
Definition blank_row (entry : HeaderEntry) : bool :=
  String.eqb (JsString.trim (key entry)) "".

(** One upload from its placeholder to its end: the world after
    [uploadFile] has inserted the placeholder, sent the request at the
    clock reading [now file] and handled the outcome [outcome file]. *)
Definition after_upload {E : Type} `{Editor E}
    (settings : ImageUploaderSettings) (now : File → N)
    (outcome : File → RequestOutcome) (file : File) (w : World E) : World E :=
  uploadFile_finish file (upload_result settings (outcome file))
    (upload_send settings (now file) file (uploadFile_start file w)).

(** Whether the user's action on the modal of a PDF asks for its upload. *)
Definition wants_upload (choice : File → PdfUploadModal.Action) (pdf : File)
  : bool :=
  match choice pdf with
  | PdfUploadModal.ClickUpload => true
  | _ => false
  end.

(** The host's answers for one PDF that is asked about: the user's action
    on the modal, then the reading and the outcome of the upload, or the
    name under which the vault stored the file. *)
Definition asked_pdf_answers (choice : File → PdfUploadModal.Action)
    (now : File → N) (outcome : File → RequestOutcome)
    (stored : File → string) (pdf : File) : list Resumption :=
  ModalAction (choice pdf)
    :: (if wants_upload choice pdf
        then [FileRead (now pdf); RequestSettled (outcome pdf)]
        else [AttachmentStored (stored pdf)]).

(* ===================================================================== *)
(** * Sample inputs *)
(* ===================================================================== *)

(** The body [{"url": "z"}]. *)
Definition sample_body : json := JObject (<["url" := JString "z"]> ∅).

Definition sample_settings : ImageUploaderSettings :=
  mkSettings "https://h/upload" [] "file" "url" PdfUpload.

Definition image_png : File := mkFile "image.png" "image/png" [].

Definition a_png : File := mkFile "a.png" "image/png" [].
Definition b_png : File := mkFile "b.png" "image/png" [].

(** A 200 response whose body is [{"url": u}]. *)
Definition respond_url (u : string) : Resumption :=
  RequestSettled
    (Responded (mkResponse 200 (Decoded (JObject (<["url" := JString u]> ∅))))).

Definition hello_png : File :=
  mkFile "hello.png" "image/png" (Utf8.encode "hello").


(** A file whose bytes open with the dash-boundary of its own upload, and
    a file whose name holds a percent escape. *)
Definition dash_file : File :=
  mkFile "notes.png" "image/png" (Utf8.encode "------ObsidianUploader0--").

Definition percent_file : File :=
  mkFile "a%22b.png" "image/png" (Utf8.encode "hello").


(** A proof by cases over the 256 code units. *)
Ltac each_code_unit c :=
  destruct c as [[|] [|] [|] [|] [|] [|] [|] [|]]; reflexivity.

(* ===================================================================== *)
(** * Facts about strings *)
(* ===================================================================== *)

Lemma append_assoc (a b c : string) : (a ++ b) ++ c = a ++ b ++ c.
Proof. induction a as [|x a IH]; simpl; [reflexivity | now rewrite IH]. Qed.

Lemma append_empty_r (a : string) : a ++ "" = a.
Proof. induction a as [|x a IH]; simpl; [reflexivity | now rewrite IH]. Qed.

Lemma append_length (a b : string) :
  String.length (a ++ b) = String.length a + String.length b.
Proof. induction a as [|x a IH]; simpl; [reflexivity | now rewrite IH]. Qed.

Lemma append_inv_head (a b c : string) : a ++ b = a ++ c → b = c.
Proof. induction a as [|x a IH]; simpl; intros Heq; [assumption|]. injection Heq; auto. Qed.

(** Cancellation of a common suffix. *)
Lemma append_inv_tail (a b c : string) : a ++ c = b ++ c → a = b.
Proof.
  revert b; induction a as [|x a IH]; intros [|y b] Heq; simpl in Heq.
  - reflexivity.
  - apply (f_equal String.length) in Heq. simpl in Heq.
    rewrite append_length in Heq. lia.
  - apply (f_equal String.length) in Heq. simpl in Heq.
    rewrite append_length in Heq. lia.
  - injection Heq as -> Heq. f_equal. now apply IH.
Qed.

Lemma strip_prefix_append (p s : string) :
  JsString.strip_prefix p (p ++ s) = Some s.
Proof.
  induction p as [|x p IH]; simpl; [reflexivity|].
  now rewrite Ascii.eqb_refl.
Qed.

Lemma strip_prefix_sound (p s t : string) :
  JsString.strip_prefix p s = Some t → s = p ++ t.
Proof.
  revert s; induction p as [|x p IH]; intros s; simpl.
  - now intros [= ->].
  - destruct s as [|y s]; [discriminate|].
    destruct (Ascii.eqb_spec x y) as [->|]; [|discriminate].
    intros Hs. simpl. f_equal. now apply IH.
Qed.

(** What [split_first] returns is an occurrence of the pattern. *)
Lemma split_first_sound (p s pre post : string) :
  JsString.split_first p s = Some (pre, post) → s = pre ++ p ++ post.
Proof.
  revert pre; induction s as [|c s IH]; intros pre; simpl.
  - destruct (JsString.strip_prefix p "") as [t|] eqn:Hp; [|discriminate].
    intros [= <- <-]. simpl. now apply strip_prefix_sound.
  - destruct (JsString.strip_prefix p (String c s)) as [t|] eqn:Hp.
    + intros [= <- <-]. simpl. now apply strip_prefix_sound.
    + destruct (JsString.split_first p s) as [[pre' post']|]; [|discriminate].
      intros [= <- <-]. simpl. f_equal. now apply IH.
Qed.

(** ... and the first one: no occurrence starts further to the left. *)
Lemma split_first_leftmost (p s pre post pre' post' : string) :
  JsString.split_first p s = Some (pre, post) →
  s = pre' ++ p ++ post' →
  (String.length pre <= String.length pre')%nat.
Proof.
  revert pre pre'; induction s as [|c s IH]; intros pre pre'; simpl.
  - destruct (JsString.strip_prefix p "") as [t|]; [|discriminate].
    intros [= <- <-] _. simpl. lia.
  - destruct (JsString.strip_prefix p (String c s)) as [t|] eqn:Hp.
    + intros [= <- <-] _. simpl. lia.
    + destruct (JsString.split_first p s) as [[q post'']|] eqn:Hs; [|discriminate].
      intros [= <- <-] Heq. destruct pre' as [|d pre'].
      * simpl in Heq. rewrite Heq, strip_prefix_append in Hp. discriminate.
      * simpl in Heq. injection Heq as -> Heq. simpl.
        specialize (IH q pre' eq_refl Heq). lia.
Qed.

(** Without an occurrence there is nothing to split. *)
Lemma split_first_none (p s pre post : string) :
  JsString.split_first p s = None → s ≠ pre ++ p ++ post.
Proof.
  revert pre; induction s as [|c s IH]; intros pre; simpl.
  - destruct (JsString.strip_prefix p "") as [t|] eqn:Hp; [discriminate|].
    intros _ Heq. destruct pre; [|discriminate]. simpl in Heq.
    rewrite Heq, strip_prefix_append in Hp. discriminate.
  - destruct (JsString.strip_prefix p (String c s)) as [t|] eqn:Hp; [discriminate|].
    destruct (JsString.split_first p s) as [[q post']|] eqn:Hs; [discriminate|].
    intros _ Heq. destruct pre as [|d pre].
    + simpl in Heq. rewrite Heq, strip_prefix_append in Hp. discriminate.
    + simpl in Heq. injection Heq as -> Heq. now apply (IH pre eq_refl).
Qed.

(** A replacement text without a dollar sign is inserted as it is. *)
Lemma get_substitution_literal (matched before after repl : string) :
  JsString.contains_char JsString.DOLLAR repl = false →
  JsString.get_substitution matched before after repl = repl.
Proof.
  induction repl as [|c repl IH]; simpl; [reflexivity|].
  intros Hc. apply orb_false_iff in Hc as [Hc Hr].
  rewrite Hc. f_equal. now apply IH.
Qed.

Lemma replace_literal (s p repl : string) :
  JsString.contains_char JsString.DOLLAR repl = false →
  JsString.replace s p repl =
    match JsString.split_first p s with
    | Some (pre, post) => pre ++ repl ++ post
    | None => s
    end.
Proof.
  intros Hr. unfold JsString.replace.
  destruct (JsString.split_first p s) as [[pre post]|]; [|reflexivity].
  now rewrite get_substitution_literal.
Qed.

(* ===================================================================== *)
(** * The classifier *)
(* ===================================================================== *)

Lemma pop_cons (x y : string) (rest : list string) :
  JsString.pop (x :: y :: rest) = JsString.pop (y :: rest).
Proof. reflexivity. Qed.

(** The pieces [split] cuts a name into, against the text after the last
    dot: a single piece is the whole name, and with more pieces the last
    one is what follows the last dot. *)
Lemma split_dot_shape (s : string) :
  ∃ piece rest,
    JsString.split "."%char s = piece :: rest ∧
    match rest with
    | [] => SpecClassifier.after_last_dot s = None ∧ piece = s
    | _ :: _ => ∃ e, SpecClassifier.after_last_dot s = Some e
                     ∧ JsString.pop rest = Some e
    end.
Proof.
  induction s as [|c s (piece & rest & Hsplit & Hshape)].
  - exists "", []. simpl. auto.
  - simpl. rewrite Hsplit. destruct (Ascii.eqb_spec c "."%char) as [->|Hc].
    + exists "", (piece :: rest). split; [reflexivity|].
      destruct rest as [|y rest].
      * destruct Hshape as [Hnone ->]. exists s. simpl. rewrite Hnone. auto.
      * destruct Hshape as (e & Hsome & Hpop). exists e. simpl.
        rewrite Hsome. auto.
    + exists (String c piece), rest. split; [reflexivity|].
      destruct rest as [|y rest].
      * destruct Hshape as [Hnone ->]. split; [|reflexivity].
        simpl. now rewrite Hnone.
      * destruct Hshape as (e & Hsome & Hpop). exists e.
        split; [|assumption]. simpl. now rewrite Hsome.
Qed.

(** [pop] after [split] never meets the empty array: the [?? ""] of the
    source is never taken. *)
Lemma extension_unfold (file_name : string) :
  extension file_name =
    match SpecClassifier.after_last_dot file_name with
    | Some e => JsString.toLowerCase e
    | None => JsString.toLowerCase file_name
    end.
Proof.
  unfold extension.
  destruct (split_dot_shape file_name) as (piece & rest & -> & Hshape).
  destruct rest as [|y rest].
  - destruct Hshape as [-> ->]. reflexivity.
  - destruct Hshape as (e & -> & Hpop). rewrite pop_cons, Hpop. reflexivity.
Qed.

(** On a name that has a dot the code classifies as the specification
    words it. *)
Lemma classify_dotted_name (file : File) :
  SpecClassifier.after_last_dot (name file) ≠ None →
  classify file = SpecClassifier.classify (name file).
Proof.
  intros Hdot. unfold classify, SpecClassifier.classify, isImageFile, isPdfFile.
  rewrite extension_unfold. unfold SpecClassifier.extension.
  destruct (SpecClassifier.after_last_dot (name file)); [reflexivity|congruence].
Qed.

(** On a name without a dot the code takes the whole name for the
    extension. *)
Lemma extension_undotted_name (file_name : string) :
  SpecClassifier.after_last_dot file_name = None →
  extension file_name = JsString.toLowerCase file_name.
Proof. intros Hdot. now rewrite extension_unfold, Hdot. Qed.

(** C5 (the code departs from the claim): a name without a dot is not
    given the empty extension.  [split] returns the whole name as its only
    piece, [pop] hands it back and it is looked up as the extension, so
    the files named [png] and [PDF] are classified [Image] and [Pdf],
    where splitting on the last dot classifies both [Other]. *)
Theorem classify_name_without_dot :
  extension "png" = "png"
  ∧ classify (mkFile "png" "" []) = Image
  ∧ SpecClassifier.classify "png" = Other
  ∧ classify (mkFile "PDF" "" []) = Pdf
  ∧ SpecClassifier.classify "PDF" = Other.
Proof. repeat split; reflexivity. Qed.

(* ===================================================================== *)
(** * The dot-path extractor *)
(* ===================================================================== *)

(** C6 (counterexample): on the body [{"url":"z"}] the empty path does not
    give the body back; it gives [undefined]. *)
Lemma getByPath_empty_path_not_root :
  getByPath (Some sample_body) "" ≠ Some sample_body
  ∧ getByPath (Some sample_body) "" = None.
Proof. split; [vm_compute; discriminate | vm_compute; reflexivity]. Qed.

(** C6 (amended): the empty path is the one-key path whose key is the
    empty string.  [getByPath] returns the own property stored under that
    key when the value is an object, and [undefined] for every other
    value. *)
Theorem getByPath_empty_path (obj : option json) :
  JsString.split "."%char "" = [""]
  ∧ getByPath obj "" =
      match obj with
      | Some (JObject props) => props !! ""
      | _ => None
      end.
Proof.
  split; [reflexivity|].
  destruct obj as [[| b | n | s | items | props]|]; reflexivity.
Qed.

(* ===================================================================== *)
(** * The upload client *)
(* ===================================================================== *)

Lemma status_test_ok (code : Z) :
  (200 <= code < 300)%Z → (code <? 200)%Z || (code >=? 300)%Z = false.
Proof.
  intros Hc. rewrite Z.geb_leb.
  destruct (Z.ltb_spec code 200), (Z.leb_spec 300 code); simpl; lia.
Qed.

Lemma status_test_bad (code : Z) :
  (code < 200 ∨ 300 <= code)%Z → (code <? 200)%Z || (code >=? 300)%Z = true.
Proof.
  intros Hc. rewrite Z.geb_leb.
  destruct (Z.ltb_spec code 200), (Z.leb_spec 300 code); simpl; lia.
Qed.

(** The two messages of [upload], letter by letter. *)
Lemma status_message_text (code : Z) :
  status_message code = "Server responded with status " ++ JsString.of_Z code.
Proof. reflexivity. Qed.

Lemma path_message_text (path : string) :
  path_message path
  = "Could not extract URL from response using path "
      ++ String "034"%char (path ++ String "034"%char "").
Proof. reflexivity. Qed.

(** Neither outcome of the extraction stage on a decoded body is the
    status failure. *)
Lemma extract_url_not_status (settings : ImageUploaderSettings) (data : json)
    (code : Z) :
  extract_url settings (Decoded data)
  ≠ Failure ("Server responded with status " ++ JsString.of_Z code).
Proof.
  unfold extract_url.
  destruct (falsy _ || negb _); [|discriminate].
  rewrite path_message_text. simpl. intros [=].
Qed.

(** C3: once [requestUrl] has answered, [upload] fails with the reason
    ["Server responded with status <code>"], the code in decimal, on
    every status outside [200,300), and on a status inside it the result
    is that of reading [response.json] and extracting the URL.  For a
    response whose body decodes, the failure has this reason exactly when
    the status lies outside [200,300); over all responses it has this
    reason exactly when the status lies outside [200,300) or the error
    thrown by reading [response.json] carries this very text.  A 500 and a
    404 fail with ["Server responded with status 500"] and
    ["Server responded with status 404"], whatever the body. *)
Theorem upload_status_failure (settings : ImageUploaderSettings)
    (response : RequestUrlResponse) :
  let result := upload_result settings (Responded response) in
  let text :=
    "Server responded with status " ++ JsString.of_Z (status response) in
  ((status response < 200 ∨ 300 <= status response)%Z →
   result = Failure text)
  ∧ ((200 <= status response < 300)%Z →
     result = extract_url settings (response_json response))
  ∧ (∀ data, response_json response = Decoded data →
       (result = Failure text
        ↔ (status response < 200 ∨ 300 <= status response)%Z))
  ∧ (result = Failure text
     ↔ (status response < 200 ∨ 300 <= status response)%Z
       ∨ response_json response = NotJson text)
  ∧ upload_result settings
      (Responded (mkResponse 500 (response_json response)))
    = Failure "Server responded with status 500"
  ∧ upload_result settings
      (Responded (mkResponse 404 (response_json response)))
    = Failure "Server responded with status 404".
Proof.
  intros result text. unfold result, text. simpl. unfold handle_response.
  assert (Hbad : (status response < 200 ∨ 300 <= status response)%Z →
                 (if (status response <? 200)%Z || (status response >=? 300)%Z
                  then Failure (status_message (status response))
                  else extract_url settings (response_json response))
                 = Failure ("Server responded with status "
                              ++ JsString.of_Z (status response))).
  { intros Hout. now rewrite status_test_bad. }
  assert (Hgood : (200 <= status response < 300)%Z →
                  (if (status response <? 200)%Z || (status response >=? 300)%Z
                   then Failure (status_message (status response))
                   else extract_url settings (response_json response))
                  = extract_url settings (response_json response)).
  { intros Hin. now rewrite status_test_ok. }
  assert (Hcases : (status response < 200 ∨ 300 <= status response)%Z
                   ∨ (200 <= status response < 300)%Z) by lia.
  split; [exact Hbad|]. split; [exact Hgood|]. split; [|split].
  - intros data Hdata. split; [|exact Hbad].
    intros Hres. destruct Hcases as [Hout|Hin]; [exact Hout|].
    rewrite Hgood, Hdata in Hres by assumption.
    now apply extract_url_not_status in Hres.
  - split.
    + intros Hres. destruct Hcases as [Hout|Hin]; [now left|].
      rewrite Hgood in Hres by assumption.
      destruct (response_json response) as [data|message].
      * now apply extract_url_not_status in Hres.
      * simpl in Hres. right. congruence.
    + intros [Hout|Hjson]; [now apply Hbad|].
      destruct Hcases as [Hout|Hin]; [now apply Hbad|].
      rewrite Hgood by assumption. now rewrite Hjson.
  - split; reflexivity.
Qed.

(** A 503 answered with a body that decodes. *)
Lemma upload_status_failure_witness :
  upload_result sample_settings (Responded (mkResponse 503 (Decoded JNull)))
  = Failure "Server responded with status 503".
Proof.
  destruct (upload_status_failure sample_settings
              (mkResponse 503 (Decoded JNull))) as [Hbad _].
  apply Hbad. simpl. lia.
Defined.

(** The spec's example: a 500 response. *)
Example upload_500 :
  upload_result sample_settings (Responded (mkResponse 500 (NotJson "")))
    = Failure "Server responded with status 500".
Proof. reflexivity. Qed.

(** C4 (counterexample): a 200 response whose body is [{"url": ""}], read
    with the path [url].  The extractor yields a string, the empty one, and
    [upload] fails instead of succeeding with it. *)
Lemma upload_empty_url_fails :
  let data := JObject (<["url" := JString ""]> ∅) in
  getByPath (Some data) (imageUrlPath sample_settings) = Some (JString "")
  ∧ upload_result sample_settings (Responded (mkResponse 200 (Decoded data)))
      ≠ Success ""
  ∧ upload_result sample_settings (Responded (mkResponse 200 (Decoded data)))
      = Failure ("Could not extract URL from response using path "
                   ++ String "034"%char "url" ++ String "034"%char "").
Proof. vm_compute. repeat split; [discriminate]. Qed.

(** The extraction stage on a decoded body, by what the path leads to. *)
Lemma extract_url_decoded (settings : ImageUploaderSettings) (data : json) :
  extract_url settings (Decoded data) =
    match getByPath (Some data) (imageUrlPath settings) with
    | Some (JString s) =>
        if String.eqb s "" then Failure (path_message (imageUrlPath settings))
        else Success s
    | _ => Failure (path_message (imageUrlPath settings))
    end.
Proof.
  unfold extract_url.
  destruct (getByPath (Some data) (imageUrlPath settings))
    as [[| b | n | s | items | props]|]; simpl;
    rewrite ?orb_true_r, ?orb_false_r; reflexivity.
Qed.

(** C4 (amended): on a 2xx response with a decoded body, [upload] succeeds
    with the extracted value exactly when that value is a non-empty
    string, and fails with the reason
    [Could not extract URL from response using path "<path>"], the path in
    double quotes, in every other case: nothing found, a value that is
    not a string, or the empty string. *)
Theorem upload_extraction (settings : ImageUploaderSettings) (code : Z)
    (data : json) :
  (200 <= code < 300)%Z →
  let found := getByPath (Some data) (imageUrlPath settings) in
  let result :=
    upload_result settings (Responded (mkResponse code (Decoded data))) in
  let reason :=
    "Could not extract URL from response using path "
      ++ String "034"%char (imageUrlPath settings ++ String "034"%char "") in
  (∀ s, found = Some (JString s) → s ≠ "" → result = Success s)
  ∧ (result = Failure reason ↔ ¬ ∃ s, s ≠ "" ∧ found = Some (JString s))
  ∧ (∀ u, result = Success u → found = Some (JString u) ∧ u ≠ "")
  ∧ (result = Failure reason ∨ ∃ s, s ≠ "" ∧ result = Success s).
Proof.
  intros Hok found result reason.
  assert (Hres : result = extract_url settings (Decoded data)).
  { unfold result. simpl. unfold handle_response. simpl.
    now rewrite status_test_ok. }
  rewrite Hres, extract_url_decoded, path_message_text.
  fold found. fold reason. clear Hres result.
  enough (Hmain :
    (∀ s, found = Some (JString s) → s ≠ "" →
          match found with
          | Some (JString s0) =>
              if String.eqb s0 "" then Failure reason else Success s0
          | _ => Failure reason
          end = Success s)
    ∧ (match found with
       | Some (JString s0) =>
           if String.eqb s0 "" then Failure reason else Success s0
       | _ => Failure reason
       end = Failure reason ↔ ¬ ∃ s, s ≠ "" ∧ found = Some (JString s))
    ∧ (∀ u, match found with
            | Some (JString s0) =>
                if String.eqb s0 "" then Failure reason else Success s0
            | _ => Failure reason
            end = Success u → found = Some (JString u) ∧ u ≠ "")).
  { destruct Hmain as (H1 & H2 & H3).
    split; [exact H1|]. split; [exact H2|]. split; [exact H3|].
    destruct found as [[| b | n | s | items | props]|];
      try (left; reflexivity).
    destruct (String.eqb_spec s "");
      [left; reflexivity | right; exists s; auto]. }
  destruct found as [[| b | n | s | items | props]|];
    try (split; [|split]; [ intros ? [=] | | intros ? [=] ];
         split; [ intros _ (? & _ & [=]) | reflexivity ]).
  destruct (String.eqb_spec s "") as [->|Hne].
  - split; [|split].
    + intros s' [= <-] Hs. congruence.
    + split; [|reflexivity]. intros _ (s' & Hs & [= <-]). congruence.
    + intros u [=].
  - split; [|split].
    + now intros s' [= <-] _.
    + split; [intros [=]|]. intros Hnone. exfalso. apply Hnone. now exists s.
    + intros u [= <-]. auto.
Qed.

(** The spec's example: a 201 response with [{"url":"https://h/f.png"}]
    and the path [url]. *)
Lemma upload_extraction_witness :
  (200 <= 201 < 300)%Z
  ∧ upload_result sample_settings
      (Responded (mkResponse 201
         (Decoded (JObject (<["url" := JString "https://h/f.png"]> ∅)))))
    = Success "https://h/f.png"
  ∧ upload_result sample_settings
      (Responded (mkResponse 201
         (Decoded (JObject (<["link" := JString "https://h/f.png"]> ∅)))))
    = Failure ("Could not extract URL from response using path "
                 ++ String "034"%char "url" ++ String "034"%char "").
Proof.
  split; [lia|]. split.
  - destruct (upload_extraction sample_settings 201
                (JObject (<["url" := JString "https://h/f.png"]> ∅))
                ltac:(lia)) as [Hsuccess _].
    apply Hsuccess; [reflexivity | discriminate].
  - destruct (upload_extraction sample_settings 201
                (JObject (<["link" := JString "https://h/f.png"]> ∅))
                ltac:(lia)) as (_ & Hfailure & _).
    apply Hfailure. intros (s & _ & Hfound). discriminate Hfound.
Defined.

(* ===================================================================== *)
(** * The PDF choice modal *)
(* ===================================================================== *)

(** A resolved promise stays as it is, whatever is resolved next. *)
Lemma resolve_settled (v b : bool) :
  PdfUploadModal.resolve v (Some b) = Some b.
Proof. reflexivity. Qed.

(** C9: closing the modal without a choice resolves the promise of
    [askPdfUpload] to [false], and the chain of [handleFiles] then saves
    the PDF locally without starting an upload; clicking "Upload to API"
    resolves it to [true], the [onClose] run by the [close()] that follows
    leaves the resolved promise alone, and the chain starts the upload. *)
Theorem modal_choice {E : Type} `{Editor E} (settings : ImageUploaderSettings)
    (file : File) (pdfs : list File) (w : World E) :
  askPdfUpload PdfUploadModal.CloseWithoutChoice = Some false
  ∧ resume settings (AskingPdf file pdfs)
      (ModalAction PdfUploadModal.CloseWithoutChoice) w
    = Some (close_modal w, SavingPdf file pdfs)
  ∧ askPdfUpload PdfUploadModal.ClickUpload = Some true
  ∧ PdfUploadModal.close (PdfUploadModal.resolve true None) = Some true
  ∧ (∀ b, PdfUploadModal.onClose (Some b) = Some b)
  ∧ resume settings (AskingPdf file pdfs)
      (ModalAction PdfUploadModal.ClickUpload) w
    = Some (uploadFile_start file (close_modal w),
            UploadingPdf ReadingFile file pdfs).
Proof. repeat split. Qed.

(** An abandoned choice issues no request and stores the file in the
    vault once the host has created it. *)
Example abandoned_choice_saves_locally :
  let pdf := mkFile "d.pdf" "application/pdf" [] in
  let settings := mkSettings "https://h/upload" [] "file" "url" PdfAsk in
  let '(suppressed, (w, c)) :=
    handleFiles settings true (Some [pdf]) initial_world in
  suppressed = true ∧ c = AskingPdf pdf [] ∧ open_modals w = 1
  ∧ ∃ w', run settings c
            [ModalAction PdfUploadModal.CloseWithoutChoice;
             AttachmentStored "d.pdf"] w = Some (w', Finished)
          ∧ requests w' = []
          ∧ open_modals w' = 0%nat
          ∧ attachments w' = [("d.pdf", [])]
          ∧ getValue (editor w') = "![[d.pdf]]".
Proof. vm_compute. repeat split. eexists. repeat split. Qed.

(* ===================================================================== *)
(** * Loading the settings *)
(* ===================================================================== *)

Lemma loadSettings_union (data : option json) :
  loadSettings data
  = delete "__proto__" (own_enumerable data) ∪ settings_object DEFAULT_SETTINGS.
Proof.
  unfold loadSettings, Object_assign. simpl.
  rewrite (right_id ∅ (∪)).
  now rewrite (delete_id (settings_object DEFAULT_SETTINGS)) by reflexivity.
Qed.

Lemma loadSettings_lookup (data : option json) (field : string) :
  field ≠ "__proto__" →
  loadSettings data !! field =
    match own_enumerable data !! field with
    | Some v => Some v
    | None => settings_object DEFAULT_SETTINGS !! field
    end.
Proof.
  intros Hfield. rewrite loadSettings_union, lookup_union.
  rewrite lookup_delete_ne by congruence.
  destruct (own_enumerable data !! field) as [v|];
    destruct (settings_object DEFAULT_SETTINGS !! field); reflexivity.
Qed.

Lemma loadSettings_no_own_proto (data : option json) :
  loadSettings data !! "__proto__" = None.
Proof.
  rewrite loadSettings_union, lookup_union, lookup_delete_eq.
  reflexivity.
Qed.

(** C10: after [loadSettings] each of the five settings fields is
    present; a field the persisted data holds has the persisted value, and
    a field it lacks has its default: [apiEndpoint ""], [headers []],
    [fileFieldName "file"], [imageUrlPath ""], [pdfHandling "default"]. *)
Theorem loadSettings_fields_defined (data : option json) :
  let persisted := own_enumerable data in
  loadSettings data !! "apiEndpoint"
    = Some (default (JString "") (persisted !! "apiEndpoint"))
  ∧ loadSettings data !! "headers"
    = Some (default (JArray []) (persisted !! "headers"))
  ∧ loadSettings data !! "fileFieldName"
    = Some (default (JString "file") (persisted !! "fileFieldName"))
  ∧ loadSettings data !! "imageUrlPath"
    = Some (default (JString "") (persisted !! "imageUrlPath"))
  ∧ loadSettings data !! "pdfHandling"
    = Some (default (JString "default") (persisted !! "pdfHandling"))
  ∧ Forall (fun field => is_Some (loadSettings data !! field)) SETTINGS_FIELDS.
Proof.
  intros persisted. unfold persisted.
  repeat split; try (rewrite loadSettings_lookup by discriminate;
    destruct (own_enumerable data !! _); reflexivity).
  repeat constructor; rewrite loadSettings_lookup by discriminate;
    destruct (own_enumerable data !! _); eauto.
Qed.

(** Nothing saved yet: the settings are the defaults. *)
Example loadSettings_no_data :
  loadSettings (Some JNull) = settings_object DEFAULT_SETTINGS.
Proof.
  rewrite loadSettings_union. simpl.
  now rewrite delete_empty, (left_id ∅ (∪)).
Qed.

(* ===================================================================== *)
(** * Placeholders *)
(* ===================================================================== *)

Lemma placeholder_inj (f g : File) :
  placeholder f = placeholder g → name f = name g.
Proof.
  unfold placeholder. intros Heq.
  apply append_inv_head in Heq. now apply append_inv_tail in Heq.
Qed.

Lemma placeholder_of_name (f g : File) :
  placeholder f = placeholder g ↔ name f = name g.
Proof.
  split; [apply placeholder_inj|].
  unfold placeholder. now intros ->.
Qed.

(** C7 (counterexample): the same document receives two paste events, each
    carrying a file named [image.png], the second while the first upload is
    still in flight.  Both uploads are then in flight with one and the same
    placeholder, which stands twice in the text. *)
Lemma same_name_placeholders_collide :
  let first := handleFiles DEFAULT_SETTINGS true (Some [image_png])
                 initial_world in
  let second := handleFiles DEFAULT_SETTINGS true (Some [image_png])
                  (fst (snd first)) in
  let chains := [snd (snd first); snd (snd second)] in
  files_in_flight chains = [image_png; image_png]
  ∧ active_placeholders chains
    = ["![Uploading image.png...]()"; "![Uploading image.png...]()"]
  ∧ ¬ NoDup (active_placeholders chains)
  ∧ getValue (editor (fst (snd second)))
    = "![Uploading image.png...]()![Uploading image.png...]()".
Proof.
  vm_compute. repeat split.
  intros Hnodup. inversion Hnodup as [|x l Hnotin _]; subst.
  apply Hnotin. constructor.
Qed.

(** C7 (amended): the placeholder of an upload in flight is the text
    [![Uploading <file name>...]()], a function of the file name alone.
    The placeholders in flight over the chains working on a document are
    pairwise distinct exactly when the names of the files in flight are;
    two files share one placeholder exactly when they have the same
    name. *)
Theorem placeholders_distinct_iff_names (chains : list Chain) :
  (NoDup (active_placeholders chains)
   ↔ NoDup (map name (files_in_flight chains)))
  ∧ active_placeholders chains
    = map (fun file => "![Uploading " ++ name file ++ "...]()")
          (files_in_flight chains)
  ∧ (∀ f g : File, placeholder f = placeholder g ↔ name f = name g).
Proof.
  split; [|split; [reflexivity | apply placeholder_of_name]].
  unfold active_placeholders.
  induction (files_in_flight chains) as [|f files IH]; simpl.
  - split; constructor.
  - split; intros Hnodup; inversion Hnodup as [|x l Hnotin Hrest]; subst;
      constructor; try (now apply IH).
    + intros Hin. apply Hnotin. apply list_elem_of_In.
      apply list_elem_of_In, in_map_iff in Hin as (g & Hname & Hg).
      apply in_map_iff. exists g. split; [|assumption].
      now apply placeholder_of_name.
    + intros Hin. apply Hnotin. apply list_elem_of_In.
      apply list_elem_of_In, in_map_iff in Hin as (g & Hph & Hg).
      apply in_map_iff. exists g. split; [|assumption].
      now apply placeholder_of_name.
Qed.

(** Within one batch no two uploads are in flight together: a chain has
    at most one. *)
Lemma chain_dispatches_at_most_one (c : Chain) : (dispatched c <= 1)%nat.
Proof. unfold dispatched. destruct (in_flight c); lia. Qed.

(* ===================================================================== *)
(** * Replacing the placeholder *)
(* ===================================================================== *)

(** What [uploadFile] leaves in a text buffer on success, when the
    Markdown to insert holds no dollar sign: the first occurrence of the
    placeholder is replaced, and a text without the placeholder stays as
    it was. *)
Lemma uploadFile_success_text (file : File) (url : string) (w : World Buffer) :
  JsString.contains_char JsString.DOLLAR (markdown file url) = false →
  getValue (editor (uploadFile_finish file (Success url) w)) =
    match JsString.split_first (placeholder file) (getValue (editor w)) with
    | Some (pre, post) => pre ++ markdown file url ++ post
    | None => getValue (editor w)
    end.
Proof.
  intros Hliteral. unfold uploadFile_finish. simpl.
  rewrite append_empty_r. now apply replace_literal.
Qed.

(** On failure the first occurrence of the placeholder is removed and one
    notice is shown. *)
Lemma uploadFile_failure_text (file : File) (message : string)
    (w : World Buffer) :
  let w' := uploadFile_finish file (Failure message) w in
  getValue (editor w') =
    match JsString.split_first (placeholder file) (getValue (editor w)) with
    | Some (pre, post) => pre ++ post
    | None => getValue (editor w)
    end
  ∧ notices w' = (notices w ++ ["Image upload failed: " ++ message]%string)%list.
Proof.
  unfold uploadFile_finish. simpl. rewrite append_empty_r.
  split; [|reflexivity]. now rewrite replace_literal.
Qed.

(** C2 (the code departs from the claim): [a.png] is dropped into an empty
    document and the server answers with the URL [https://h/a$$b.png].
    [String.prototype.replace] reads the Markdown as a replacement
    pattern, in which [$$] stands for one dollar sign, so the text ends up
    as [![](https://h/a$b.png)]: the placeholder is not replaced by the
    embedded-image reference to the returned URL.  With [$&] in the URL the
    placeholder itself comes back inside the link. *)
Theorem replacement_reads_dollar_patterns :
  let started := handleFiles sample_settings true (Some [a_png])
                   initial_world in
  getValue (editor (fst (snd started))) = "![Uploading a.png...]()"
  ∧ (∃ w, run sample_settings (snd (snd started))
            [FileRead 0; respond_url "https://h/a$$b.png"]
            (fst (snd started)) = Some (w, Finished)
          ∧ getValue (editor w) = "![](https://h/a$b.png)"
          ∧ getValue (editor w) ≠ markdown a_png "https://h/a$$b.png")
  ∧ (∃ w, run sample_settings (snd (snd started))
            [FileRead 0; respond_url "https://h/$&.png"]
            (fst (snd started)) = Some (w, Finished)
          ∧ getValue (editor w) = "![](https://h/![Uploading a.png...]().png)").
Proof.
  vm_compute. repeat split; eexists; repeat split. discriminate.
Qed.

(* ===================================================================== *)
(** * The order of dispatch *)
(* ===================================================================== *)

(** [handleFiles] starts the upload of the first image and of no other. *)
Lemma handleFiles_starts_one_image {E : Type} `{Editor E}
    (settings : ImageUploaderSettings) (image : File) (images pdfs : list File)
    (w : World E) :
  start_images settings (image :: images) pdfs w
  = (uploadFile_start image w, UploadingImage ReadingFile image images pdfs).
Proof. reflexivity. Qed.

(** The next image is started by the resumption that settles the current
    one, and by no other. *)
Lemma next_image_waits {E : Type} `{Editor E}
    (settings : ImageUploaderSettings) (at_ : UploadWait)
    (current next : File) (images pdfs : list File) (r : Resumption)
    (w w' : World E) :
  resume settings (UploadingImage at_ current (next :: images) pdfs) r w
    = Some (w', UploadingImage ReadingFile next images pdfs) →
  (∃ outcome, at_ = AwaitingResponse ∧ r = RequestSettled outcome)
  ∨ (∃ message, at_ = ReadingFile ∧ r = FileUnreadable message).
Proof.
  destruct at_, r; simpl; try discriminate; intros _; eauto.
Qed.

(** A failed upload is caught inside [uploadFile]: the next image is
    started all the same, after one notice. *)
Lemma failed_image_does_not_stop_next {E : Type} `{Editor E}
    (settings : ImageUploaderSettings) (current next : File)
    (images pdfs : list File) (message : string) (w : World E) :
  ∃ w', resume settings
          (UploadingImage AwaitingResponse current (next :: images) pdfs)
          (RequestSettled (Rejected message)) w
        = Some (w', UploadingImage ReadingFile next images pdfs)
        ∧ notices w' = (notices w ++ ["Image upload failed: " ++ message]%string)%list.
Proof. eexists. split; reflexivity. Qed.

(** No PDF is started while an image is left. *)
Lemma pdfs_wait_for_images {E : Type} `{Editor E}
    (settings : ImageUploaderSettings) (image : File) (images pdfs : list File)
    (w : World E) :
  in_flight (snd (start_images settings (image :: images) pdfs w)) = Some image
  ∧ requests (fst (start_images settings (image :: images) pdfs w)) = requests w.
Proof. split; reflexivity. Qed.

(** In [src/main.ts] every image is in flight as soon as [uploadFiles]
    returns. *)
Lemma MainTs_dispatches_all {E : Type} `{Editor E} (files : list File)
    (w : World E) :
  files_in_flight (snd (MainTs.uploadFiles files w)) = files.
Proof.
  unfold MainTs.uploadFiles, files_in_flight. simpl.
  induction files as [|file files IH]; [reflexivity|].
  simpl. f_equal. exact IH.
Qed.

(** C1 (the code departs from the claim): [a.png] and [b.png] are dropped
    together.  When [handleFiles] returns, only [a.png] has a placeholder
    and an upload in flight; [b.png] is still queued when the request for
    [a.png] goes out, and its upload starts only once the response for
    [a.png] has come and been written into the document.  The
    [uploadFiles] of [src/main.ts] has both in flight at once. *)
Theorem images_upload_one_after_another :
  let started := handleFiles sample_settings true (Some [a_png; b_png])
                   initial_world in
  let w0 := fst (snd started) in
  let c0 := snd (snd started) in
  c0 = UploadingImage ReadingFile a_png [b_png] []
  ∧ files_in_flight [c0] = [a_png]
  ∧ getValue (editor w0) = "![Uploading a.png...]()"
  ∧ (∃ w1, run sample_settings c0 [FileRead 0] w0
             = Some (w1, UploadingImage AwaitingResponse a_png [b_png] [])
           ∧ requests w1 = [upload_request sample_settings 0 a_png])
  ∧ (∃ w2, run sample_settings c0 [FileRead 0; respond_url "https://h/a.png"] w0
             = Some (w2, UploadingImage ReadingFile b_png [] [])
           ∧ getValue (editor w2) = "![](https://h/a.png)![Uploading b.png...]()")
  ∧ files_in_flight
      (snd (MainTs.uploadFiles [a_png; b_png] initial_world))
    = [a_png; b_png].
Proof.
  repeat split; eexists; split; reflexivity.
Qed.

(* ===================================================================== *)
(** * The multipart body and its reader *)
(* ===================================================================== *)

Section BytesFacts.

Implicit Types (p s t pre post : bytes) (b c x : Byte.byte).

Lemma byte_eqb_refl x : Byte.eqb x x = true.
Proof. now apply Byte.byte_dec_lb. Qed.

Lemma byte_eqb_neq x c : Byte.eqb x c = false → x ≠ c.
Proof. intros Hx ->. rewrite byte_eqb_refl in Hx. discriminate. Qed.









End BytesFacts.

Lemma utf8_encode_app (a b : string) :
  Utf8.encode (a ++ b) = (Utf8.encode a ++ Utf8.encode b)%list.
Proof.
  induction a as [|x a IH]; simpl; [reflexivity|].
  now rewrite IH, <- app_assoc.
Qed.




Lemma encode_unit_lf (c : ascii) :
  Bytes.contains Byte.x0a (Utf8.encode_unit c) = Ascii.eqb c JsString.LF.
Proof. each_code_unit c. Qed.





























(** The file name is written between the quotes as it is: one holding a
    double quote ends the parameter early and the reader refuses the
    header. *)
Example quote_in_file_name :
  MultipartReader.decode
    (Multipart.contentType (Multipart.boundary 0))
    (Multipart.body (Multipart.boundary 0) "file"
       (mkFile (String "a" (String JsString.DQUOTE "b.png")) "image/png" []))
  = None.
Proof. vm_compute. reflexivity. Qed.

(** A name holding a percent escape is written as it is and comes back
    with the escape resolved: [a%22b.png] is read as [a], a double quote,
    [b.png]. *)
Example percent_in_file_name :
  MultipartReader.part_filename
    <$> MultipartReader.decode
          (Multipart.contentType (Multipart.boundary 0))
          (Multipart.body (Multipart.boundary 0) "file" percent_file)
  = Some (String "a" (String JsString.DQUOTE "b.png")).
Proof. vm_compute. reflexivity. Qed.

(** A file whose bytes open with the dash-boundary holds no CRLF at all,
    and yet the CRLF of the empty line and these bytes make up a
    delimiter: the part is read back empty. *)
Example dash_boundary_at_start :
  Bytes.occurs
    (Utf8.encode (JsString.CRLF ++ "--" ++ Multipart.boundary 0))
    (arrayBuffer dash_file) = false
  ∧ MultipartReader.part_data
      <$> MultipartReader.decode
            (Multipart.contentType (Multipart.boundary 0))
            (Multipart.body (Multipart.boundary 0) "file" dash_file)
    = Some [].
Proof. vm_compute. split; reflexivity. Qed.

(* ===================================================================== *)
(** * Which files an event hands to the plugin *)
(* ===================================================================== *)

Lemma image_is_not_pdf (file : File) :
  isImageFile file = true → isPdfFile file = false.
Proof.
  unfold isImageFile, isPdfFile.
  destruct (String.eqb_spec (extension (name file)) "pdf") as [->|];
    [discriminate | reflexivity].
Qed.

Lemma after_last_dot_append (stem ext : string) :
  JsString.contains_char "."%char ext = false →
  SpecClassifier.after_last_dot (stem ++ String "."%char ext) = Some ext.
Proof.
  intros Hext.
  assert (Hnone : SpecClassifier.after_last_dot ext = None).
  { induction ext as [|c ext IH]; [reflexivity|].
    simpl in Hext |- *. apply orb_false_iff in Hext as [Hc Hrest].
    now rewrite (IH Hrest), Hc. }
  induction stem as [|c stem IH]; simpl.
  - now rewrite Hnone.
  - now rewrite IH.
Qed.

(** X1: a name of the form [stem.ext], where [ext] holds no dot, is
    classified by [ext] in lower case, whatever the case it is written in
    and whatever the stem: it is an image exactly when the lower-case
    [ext] is one of the eight image extensions and a PDF exactly when it is
    [pdf]. *)
Theorem dotted_name_classified_by_extension (stem ext type_ : string)
    (content : bytes) :
  JsString.contains_char "."%char ext = false →
  let file := mkFile (stem ++ String "."%char ext) type_ content in
  extension (name file) = JsString.toLowerCase ext
  ∧ isImageFile file = includes IMAGE_EXTENSIONS (JsString.toLowerCase ext)
  ∧ isPdfFile file = String.eqb (JsString.toLowerCase ext) "pdf".
Proof.
  intros Hext file.
  assert (Hx : extension (name file) = JsString.toLowerCase ext).
  { rewrite extension_unfold. unfold file. simpl name.
    now rewrite after_last_dot_append. }
  unfold isImageFile, isPdfFile. now rewrite Hx.
Qed.

Lemma dotted_name_classified_by_extension_witness :
  isImageFile (mkFile "holiday.photo.JPG" "" []) = true
  ∧ isPdfFile (mkFile "Report.PDF" "" []) = true.
Proof.
  split.
  - exact (proj1 (proj2 (dotted_name_classified_by_extension
                           "holiday.photo" "JPG" "" [] eq_refl))).
  - exact (proj2 (proj2 (dotted_name_classified_by_extension
                           "Report" "PDF" "" [] eq_refl))).
Defined.

(** X2: [shouldIntercept] takes a file exactly when it is an image, or it
    is a PDF and the PDF handling is not the default one.  A file of
    another kind is never taken, whatever the settings. *)
Theorem shouldIntercept_by_category (settings : ImageUploaderSettings)
    (file : File) :
  (shouldIntercept settings file = true
   ↔ classify file = Image
     ∨ (classify file = Pdf ∧ pdfHandling settings ≠ PdfDefault))
  ∧ (classify file = Other → shouldIntercept settings file = false).
Proof.
  unfold shouldIntercept, classify.
  destruct (isImageFile file), (isPdfFile file), (pdfHandling settings);
    simpl; (split; [split|]); intros; try discriminate; auto;
    try (destruct H as [H | [H1 H2]]; congruence).
  all: try (right; split; congruence).
Qed.

Lemma filter_length_zero {A : Type} (f : A → bool) (l : list A) :
  Nat.eqb (length (List.filter f l)) 0 = true ↔ ∀ x, In x l → f x = false.
Proof.
  rewrite Nat.eqb_eq. induction l as [|a l IH]; simpl.
  - split; [intros _ x [] | reflexivity].
  - destruct (f a) eqn:Ha; simpl.
    + split; [discriminate|]. intros Hall.
      specialize (Hall a (or_introl eq_refl)). congruence.
    + rewrite IH. split.
      * intros Hall x [<-|Hx]; auto.
      * intros Hall x Hx. apply Hall. now right.
Qed.

Lemma filter_split_length {A : Type} (p q : A → bool) (l : list A) :
  (∀ x, In x l → (p x = true ∧ q x = false) ∨ (p x = false ∧ q x = true)) →
  (length (List.filter p l) + length (List.filter q l) = length l)%nat.
Proof.
  induction l as [|a l IH]; intros Hall; [reflexivity|].
  assert (Hrest : (length (List.filter p l) + length (List.filter q l)
                   = length l)%nat).
  { apply IH. intros x Hx. apply Hall. now right. }
  simpl. destruct (Hall a (or_introl eq_refl)) as [[-> ->]|[-> ->]];
    simpl; lia.
Qed.

(** X3: [handleFiles] suppresses the event exactly when a Markdown view
    is active and the event carries at least one file [shouldIntercept]
    takes.  When it does not suppress the event it touches nothing: no
    placeholder, no request, no modal, and no chain is started. *)
Theorem handleFiles_suppression {E : Type} `{Editor E}
    (settings : ImageUploaderSettings) (view : bool)
    (fileList : option (list File)) (w : World E) :
  (fst (handleFiles settings view fileList w) = true
   ↔ view = true
     ∧ ∃ files file, fileList = Some files ∧ In file files
                     ∧ shouldIntercept settings file = true)
  ∧ (fst (handleFiles settings view fileList w) = false
     → snd (handleFiles settings view fileList w) = (w, Finished)).
Proof.
  unfold handleFiles. destruct fileList as [files|]; simpl.
  2:{ split; [split|]; [discriminate | intros (_ & ? & ? & [=] & _) | reflexivity]. }
  destruct (Nat.eqb (length files) 0) eqn:Hlen; simpl.
  { apply Nat.eqb_eq, length_zero_iff_nil in Hlen as ->.
    split; [split|]; [discriminate | | reflexivity].
    intros (_ & ? & ? & [= <-] & [] & _). }
  destruct (Nat.eqb (length (List.filter (shouldIntercept settings) files)) 0)
    eqn:Hnone; simpl.
  { pose proof (proj1 (filter_length_zero _ _) Hnone) as Hall.
    split; [split|]; [discriminate | | reflexivity].
    intros (_ & ? & file & [= <-] & Hin & Htake).
    rewrite (Hall _ Hin) in Htake. discriminate. }
  destruct view; simpl.
  - split; [split|]; [|reflexivity|discriminate].
    intros _. split; [reflexivity|].
    assert (Hsome : ∃ file, In file files
                            ∧ shouldIntercept settings file = true).
    { clear Hlen. induction files as [|a files IH]; [discriminate|].
      simpl in Hnone. destruct (shouldIntercept settings a) eqn:Ha.
      - exists a. split; [now left | assumption].
      - destruct (IH Hnone) as (file & Hin & Htake).
        exists file. split; [now right | assumption]. }
    destruct Hsome as (file & Hin & Htake). now exists files, file.
  - split; [split|]; [discriminate | intros [[=] _] | reflexivity].
Qed.

(** X4: the files of an event are split without loss and without
    overlap.  The chain [handleFiles] starts works on the images and the
    PDFs of the event; a file is among the images exactly when it is an
    image, among the PDFs exactly when it is a PDF and the PDF handling is
    not the default one, never among both, and every intercepted file is
    in one of the two lists.  A file that is not intercepted is in
    neither: in a suppressed event it is neither uploaded nor saved. *)
Theorem handleFiles_partition {E : Type} `{Editor E}
    (settings : ImageUploaderSettings) (files : list File) (w : World E) :
  snd (handleFiles settings true (Some files) w)
    = start_images settings (batch_images settings files)
                   (batch_pdfs settings files) w
  ∧ (∀ file, In file (batch_images settings files)
             ↔ In file files ∧ isImageFile file = true)
  ∧ (∀ file, In file (batch_pdfs settings files)
             ↔ In file files ∧ isPdfFile file = true
               ∧ pdfHandling settings ≠ PdfDefault)
  ∧ (∀ file, ¬ (In file (batch_images settings files)
                ∧ In file (batch_pdfs settings files)))
  ∧ (length (batch_images settings files)
      + length (batch_pdfs settings files)
     = length (intercepted_files settings files))%nat.
Proof.
  assert (Himg : ∀ file, In file (batch_images settings files)
                         ↔ In file files ∧ isImageFile file = true).
  { intros file. unfold batch_images, intercepted_files.
    rewrite !filter_In. unfold shouldIntercept.
    destruct (isImageFile file); intuition congruence. }
  assert (Hpdf : ∀ file, In file (batch_pdfs settings files)
                         ↔ In file files ∧ isPdfFile file = true
                           ∧ pdfHandling settings ≠ PdfDefault).
  { intros file. unfold batch_pdfs, intercepted_files.
    rewrite !filter_In. unfold shouldIntercept.
    destruct (isImageFile file) eqn:Hi.
    - rewrite (image_is_not_pdf _ Hi). intuition congruence.
    - destruct (isPdfFile file), (pdfHandling settings); simpl;
        intuition congruence. }
  split; [|split; [exact Himg | split; [exact Hpdf | split]]].
  - unfold handleFiles, batch_images, batch_pdfs, intercepted_files.
    destruct (Nat.eqb (length files) 0) eqn:Hlen.
    { apply Nat.eqb_eq, length_zero_iff_nil in Hlen as ->. reflexivity. }
    destruct (Nat.eqb (length (List.filter (shouldIntercept settings) files)) 0)
      eqn:Hnone; [|reflexivity].
    apply Nat.eqb_eq, length_zero_iff_nil in Hnone. rewrite Hnone.
    reflexivity.
  - intros file [Hi Hp]. apply Himg in Hi as [_ Hi]. apply Hpdf in Hp as (_ & Hp & _).
    rewrite (image_is_not_pdf _ Hi) in Hp. discriminate.
  - unfold batch_images, batch_pdfs. apply filter_split_length.
    intros file Hin. unfold intercepted_files in Hin.
    apply filter_In in Hin as [_ Htake]. unfold shouldIntercept in Htake.
    destruct (isImageFile file) eqn:Hi.
    + left. split; [reflexivity | now apply image_is_not_pdf].
    + right. destruct (isPdfFile file); [auto | discriminate].
Qed.

(* ===================================================================== *)
(** * The request [upload] sends *)
(* ===================================================================== *)

Lemma trim_end_cons (c : ascii) (s : string) :
  JsString.trim_end (String c s) =
    match JsString.trim_end s with
    | EmptyString =>
        if JsString.is_space c then EmptyString else String c EmptyString
    | String d t => String c (String d t)
    end.
Proof. reflexivity. Qed.

Lemma trim_end_idempotent (s : string) :
  JsString.trim_end (JsString.trim_end s) = JsString.trim_end s.
Proof.
  induction s as [|c s IH]; [reflexivity|].
  rewrite (trim_end_cons c s).
  destruct (JsString.trim_end s) as [|d t] eqn:Hs.
  - destruct (JsString.is_space c) eqn:Hc; [reflexivity|].
    rewrite trim_end_cons. simpl. now rewrite Hc.
  - rewrite trim_end_cons, IH. reflexivity.
Qed.

(** [trim_end] keeps a first code unit that is not white space. *)
Lemma trim_end_head (c : ascii) (s : string) :
  JsString.is_space c = false →
  ∃ t, JsString.trim_end (String c s) = String c t.
Proof.
  intros Hc. rewrite trim_end_cons.
  destruct (JsString.trim_end s); [rewrite Hc|]; eauto.
Qed.

Lemma trim_start_head (s : string) :
  JsString.trim_start s = ""
  ∨ ∃ c t, JsString.trim_start s = String c t ∧ JsString.is_space c = false.
Proof.
  induction s as [|c s IH]; [now left|].
  simpl. destruct (JsString.is_space c) eqn:Hc; [exact IH|].
  right. eauto.
Qed.

Lemma trim_idempotent (s : string) :
  JsString.trim (JsString.trim s) = JsString.trim s.
Proof.
  unfold JsString.trim.
  destruct (trim_start_head s) as [->|(c & t & -> & Hc)]; [reflexivity|].
  destruct (trim_end_head c t Hc) as [t' Ht'].
  rewrite Ht'. cbn [JsString.trim_start]. rewrite Hc, <- Ht'.
  apply trim_end_idempotent.
Qed.

Lemma trim_all_space (s : string) :
  all_space s = true → JsString.trim s = "".
Proof.
  unfold JsString.trim. induction s as [|c s IH]; [reflexivity|].
  simpl. intros Hs. apply andb_true_iff in Hs as [-> Hs]. now apply IH.
Qed.

Lemma configured_headers_snoc (rows : list HeaderEntry) (entry : HeaderEntry) :
  configured_headers (rows ++ [entry])%list =
    if String.eqb (JsString.trim (key entry)) "" then configured_headers rows
    else assign_header (JsString.trim (key entry)) (value entry)
           (configured_headers rows).
Proof. unfold configured_headers. now rewrite foldl_snoc. Qed.

Lemma header_row_for_none (header_name : string) (rows : list HeaderEntry) :
  header_name = "" ∨ header_name = "__proto__" →
  List.filter (header_row_for header_name) rows = [].
Proof.
  intros Hname. induction rows as [|entry rows IH]; [reflexivity|].
  simpl. rewrite IH. unfold header_row_for.
  destruct Hname as [-> | ->]; simpl;
    [now rewrite andb_false_r | now rewrite andb_false_r].
Qed.

(** X5: the header object [upload] builds holds, under a name, the value
    of the last configured row whose trimmed key is that name; rows whose
    trimmed key is empty are skipped and a row whose trimmed key is
    [__proto__] writes no property, so that nothing is ever sent under
    the empty name or under [__proto__], and a name no row carries is
    absent. *)
Theorem configured_headers_last_row_wins (rows : list HeaderEntry)
    (header_name : string) :
  configured_headers rows !! header_name
  = value <$> last (List.filter (header_row_for header_name) rows)
  ∧ configured_headers rows !! "" = None
  ∧ configured_headers rows !! "__proto__" = None.
Proof.
  assert (Hlast : ∀ n, configured_headers rows !! n
                       = value <$> last (List.filter (header_row_for n) rows)).
  { clear header_name. intros header_name.
    induction rows as [|entry rows IH] using rev_ind; [reflexivity|].
    rewrite configured_headers_snoc, List.filter_app. simpl.
    unfold header_row_for at 2, assign_header.
    destruct (String.eqb_spec (JsString.trim (key entry)) "") as [Hblank|Hkey].
    - rewrite Hblank.
      destruct (String.eqb_spec "" header_name) as [<-|Hne]; simpl;
        now rewrite app_nil_r.
    - destruct (String.eqb_spec (JsString.trim (key entry)) "__proto__")
        as [Hproto|Hproto].
      + rewrite Hproto.
        destruct (String.eqb_spec "__proto__" header_name) as [<-|Hne]; simpl;
          now rewrite app_nil_r.
      + destruct (String.eqb_spec (JsString.trim (key entry)) header_name)
          as [<-|Hne]; simpl.
        * rewrite lookup_insert_eq.
          destruct (String.eqb_spec (JsString.trim (key entry)) "");
            [contradiction|].
          destruct (String.eqb_spec (JsString.trim (key entry)) "__proto__");
            [contradiction|].
          simpl. now rewrite last_snoc.
        * rewrite lookup_insert_ne by assumption. now rewrite app_nil_r. }
  split; [apply Hlast|].
  split; rewrite Hlast, header_row_for_none; auto.
Qed.

Lemma configured_headers_from (acc : gmap string string)
    (rows : list HeaderEntry) :
  foldl (fun acc entry =>
           if String.eqb (JsString.trim (key entry)) "" then acc
           else assign_header (JsString.trim (key entry)) (value entry) acc)
        acc (List.filter (fun entry => negb (blank_row entry)) rows)
  = foldl (fun acc entry =>
           if String.eqb (JsString.trim (key entry)) "" then acc
           else assign_header (JsString.trim (key entry)) (value entry) acc)
        acc rows.
Proof.
  revert acc; induction rows as [|entry rows IH]; intros acc; [reflexivity|].
  simpl. unfold blank_row at 1.
  destruct (String.eqb (JsString.trim (key entry)) "") eqn:Hblank; simpl.
  - apply IH.
  - rewrite Hblank. apply IH.
Qed.

Lemma configured_header_names_trimmed (rows : list HeaderEntry)
    (header_name : string) :
  is_Some (configured_headers rows !! header_name) →
  JsString.trim header_name = header_name ∧ header_name ≠ "".
Proof.
  induction rows as [|entry rows IH] using rev_ind.
  - intros [v Hv]. discriminate.
  - rewrite configured_headers_snoc.
    destruct (String.eqb_spec (JsString.trim (key entry)) "") as [|Hkey];
      [exact IH|].
    unfold assign_header.
    destruct (String.eqb (JsString.trim (key entry)) "__proto__");
      [exact IH|].
    destruct (decide (JsString.trim (key entry) = header_name)) as [<-|Hne].
    + intros _. split; [apply trim_idempotent | assumption].
    + now rewrite lookup_insert_ne.
Qed.

(** X6: header rows left blank change nothing in what is sent.  The row
    "Add header" appends does not alter the header object, rows whose key
    is empty or white space can be dropped from the list without altering
    it, and every name a header is sent under is trimmed and not empty. *)
Theorem blank_header_rows_send_nothing (rows : list HeaderEntry) :
  configured_headers (SettingTab.addHeader rows) = configured_headers rows
  ∧ configured_headers
      (List.filter (fun entry => negb (blank_row entry)) rows)
    = configured_headers rows
  ∧ (∀ header_name, is_Some (configured_headers rows !! header_name) →
       JsString.trim header_name = header_name ∧ header_name ≠ "")
  ∧ SettingTab.removeHeader (length rows) (SettingTab.addHeader rows) = rows.
Proof.
  split; [|split; [|split]].
  - unfold SettingTab.addHeader. now rewrite configured_headers_snoc.
  - apply configured_headers_from.
  - apply configured_header_names_trimmed.
  - unfold SettingTab.removeHeader, SettingTab.addHeader.
    rewrite delete_middle. apply app_nil_r.
Qed.

(** X7: a header row added in the settings tab and then filled in.  When
    the key typed in is not blank and is not [__proto__] once trimmed, its
    value is what is sent under the trimmed key, overriding every earlier
    row of that name, and the headers of other names stay as they were;
    a row whose trimmed key is [__proto__] leaves the header object as it
    was. *)
Theorem filled_header_row_is_sent (rows : list HeaderEntry) (k v : string) :
  JsString.trim k ≠ "" →
  let rows' :=
    SettingTab.setHeaderValue (length rows) v
      (SettingTab.setHeaderKey (length rows) k (SettingTab.addHeader rows)) in
  rows' = (rows ++ [mkHeader k v])%list
  ∧ (JsString.trim k ≠ "__proto__" →
     configured_headers rows' !! JsString.trim k = Some v)
  ∧ (JsString.trim k = "__proto__" →
     configured_headers rows' = configured_headers rows)
  ∧ ∀ other, other ≠ JsString.trim k →
             configured_headers rows' !! other
             = configured_headers rows !! other.
Proof.
  intros Hk rows'.
  assert (Hrows : rows' = (rows ++ [mkHeader k v])%list).
  { unfold rows', SettingTab.setHeaderValue, SettingTab.setHeaderKey,
      SettingTab.addHeader.
    assert (Halter : ∀ (f : HeaderEntry → HeaderEntry) e,
               alter f (length rows) (rows ++ [e])%list = (rows ++ [f e])%list).
    { intros f e. induction rows as [|r rows IH]; [reflexivity|].
      simpl. f_equal. exact IH. }
    now rewrite !Halter. }
  split; [exact Hrows|]. rewrite Hrows, configured_headers_snoc. simpl.
  destruct (String.eqb_spec (JsString.trim k) ""); [contradiction|].
  unfold assign_header.
  destruct (String.eqb_spec (JsString.trim k) "__proto__") as [Hproto|Hproto].
  - split; [contradiction|]. split; reflexivity.
  - split; [intros _; apply lookup_insert_eq|].
    split; [contradiction|].
    intros other Hother. now rewrite lookup_insert_ne.
Qed.

Lemma filled_header_row_is_sent_witness :
  configured_headers
    (SettingTab.setHeaderValue 1 "secret"
       (SettingTab.setHeaderKey 1 " X-API-Key "
          (SettingTab.addHeader [mkHeader "X-API-Key" "old"])))
    !! "X-API-Key" = Some "secret".
Proof.
  destruct (filled_header_row_is_sent
              [mkHeader "X-API-Key" "old"] " X-API-Key " "secret")
    as (_ & Hsent & _).
  - vm_compute. discriminate.
  - apply Hsent. vm_compute. discriminate.
Defined.

(** X8: the form field name [upload] uses is never empty and carries no
    white space around it (trimming it again changes nothing); a
    configured name that is empty or made of white space only gives
    [file]. *)
Theorem effective_field_name_trimmed (settings : ImageUploaderSettings) :
  effective_field_name settings ≠ ""
  ∧ JsString.trim (effective_field_name settings)
    = effective_field_name settings
  ∧ (all_space (fileFieldName settings) = true →
     effective_field_name settings = "file").
Proof.
  unfold effective_field_name.
  destruct (String.eqb_spec (JsString.trim (fileFieldName settings)) "")
    as [Hblank|Hname].
  - repeat split; discriminate.
  - split; [assumption|]. split; [apply trim_idempotent|].
    intros Hs. now rewrite trim_all_space in Hname.
Qed.

(** X9: the request [upload] issues is consistent with itself.  It is a
    POST to the configured endpoint; its [Content-Type] header is
    [multipart/form-data; boundary=<boundary>], whatever [Content-Type]
    the user configured, and every header configured under another name
    goes through unchanged; and the boundary that header announces is the
    one the body opens and closes with, around the two part headers
    (carrying the field name in force, the file name and the declared
    type), the empty line and the bytes of the file. *)
Theorem upload_request_consistent (settings : ImageUploaderSettings) (now : N)
    (file : File) :
  let request := upload_request settings now file in
  let boundary := Multipart.boundary now in
  method request = "POST"
  ∧ url request = apiEndpoint settings
  ∧ request_headers request !! "Content-Type"
    = Some ("multipart/form-data; boundary=" ++ boundary)
  ∧ (∀ other, other ≠ "Content-Type" →
              request_headers request !! other
              = configured_headers (headers settings) !! other)
  ∧ request_body request
    = (Utf8.encode ("--" ++ boundary ++ JsString.CRLF)
       ++ Utf8.encode
            ("Content-Disposition: form-data; name="
               ++ String JsString.DQUOTE (effective_field_name settings)
               ++ String JsString.DQUOTE "; filename="
               ++ String JsString.DQUOTE (name file)
               ++ String JsString.DQUOTE JsString.CRLF)
       ++ Utf8.encode
            ("Content-Type: "
               ++ (if String.eqb (type file) "" then "application/octet-stream"
                   else type file) ++ JsString.CRLF)
       ++ Utf8.encode JsString.CRLF
       ++ arrayBuffer file
       ++ Utf8.encode (JsString.CRLF ++ "--" ++ boundary ++ "--"
                         ++ JsString.CRLF))%list.
Proof.
  intros request boundary. unfold request, upload_request.
  cbn [method url request_headers request_body]. fold boundary.
  split; [reflexivity|]. split; [reflexivity|].
  split; [apply lookup_insert_eq|]. split.
  - intros other Hother. now rewrite lookup_insert_ne.
  - unfold Multipart.body, Multipart.partHeader, Multipart.partFooter,
      Multipart.disposition_line, Multipart.type_line, Multipart.declared_type.
    change (String JsString.DQUOTE JsString.CRLF)
      with (String JsString.DQUOTE "" ++ JsString.CRLF).
    rewrite !utf8_encode_app, <- !app_assoc. reflexivity.
Qed.

(** A configured [Content-Type] header and a blank field name: the
    request carries the multipart header and the field name [file]. *)
Lemma upload_request_consistent_witness :
  request_headers
    (upload_request
       (mkSettings "https://h/upload"
                   [mkHeader "Content-Type" "text/plain";
                    mkHeader "X-Token" "t"]
                   "  " "url" PdfDefault)
       0 hello_png) !! "Content-Type"
  = Some "multipart/form-data; boundary=----ObsidianUploader0"
  ∧ request_headers
      (upload_request
         (mkSettings "https://h/upload"
                     [mkHeader "Content-Type" "text/plain";
                      mkHeader "X-Token" "t"]
                     "  " "url" PdfDefault)
         0 hello_png) !! "X-Token"
    = Some "t".
Proof.
  destruct (upload_request_consistent
              (mkSettings "https://h/upload"
                          [mkHeader "Content-Type" "text/plain";
                           mkHeader "X-Token" "t"]
                          "  " "url" PdfDefault)
              0 hello_png) as (_ & _ & Htype & Hother & _).
  split; [exact Htype|].
  rewrite Hother; [reflexivity | discriminate].
Defined.

(* ===================================================================== *)
(** * Walking a path *)
(* ===================================================================== *)

Lemma split_nonempty (sep : ascii) (s : string) : JsString.split sep s ≠ [].
Proof.
  destruct s as [|c s]; simpl; [discriminate|].
  destruct (Ascii.eqb c sep); [discriminate|].
  destruct (JsString.split sep s); discriminate.
Qed.

Lemma split_without_separator (sep : ascii) (s : string) :
  JsString.contains_char sep s = false → JsString.split sep s = [s].
Proof.
  induction s as [|c s IH]; [reflexivity|].
  simpl. intros Hs. apply orb_false_iff in Hs as [-> Hs].
  now rewrite (IH Hs).
Qed.

Lemma split_append (sep : ascii) (p q : string) :
  JsString.split sep (p ++ String sep q)
  = (JsString.split sep p ++ JsString.split sep q)%list.
Proof.
  induction p as [|c p IH]; simpl.
  - now rewrite Ascii.eqb_refl.
  - rewrite IH. destruct (Ascii.eqb c sep); [reflexivity|].
    pose proof (split_nonempty sep p) as Hne.
    destruct (JsString.split sep p); [contradiction | reflexivity].
Qed.

Lemma getByPath_loop_undefined (keys : list string) :
  getByPath_loop None keys = None.
Proof. destruct keys; reflexivity. Qed.

Lemma getByPath_loop_app (current : option json) (keys keys' : list string) :
  getByPath_loop current (keys ++ keys')%list
  = getByPath_loop (getByPath_loop current keys) keys'.
Proof.
  revert current; induction keys as [|k keys IH]; intros current;
    [reflexivity|].
  simpl.
  destruct (is_nullish current || negb (String.eqb (typeof current) "object")).
  - now rewrite getByPath_loop_undefined.
  - destruct current; [apply IH | now rewrite getByPath_loop_undefined].
Qed.

Lemma getByPath_scalar (v : json) (path : string) :
  typeof (Some v) ≠ "object" ∨ v = JNull → getByPath (Some v) path = None.
Proof.
  intros Hscalar. unfold getByPath.
  pose proof (split_nonempty "."%char path) as Hne.
  destruct (JsString.split "."%char path) as [|k keys]; [contradiction|].
  destruct Hscalar as [Htype| ->]; [|reflexivity].
  destruct v; simpl in Htype |- *; congruence.
Qed.

(** X10: paths compose at a dot.  When the path [p] leads to a value,
    walking [p.q] is walking [q] from that value; a path of one key
    without a dot gives the property of that name an object has of its
    own; and when [p] leads to [null], a boolean, a number or a string,
    nothing is found under [p.q].  So [data.link] on
    [{"data": {"link": u}}] is [u], and [a.b] on [{"a": 1}] is
    [undefined]. *)
Theorem getByPath_composes (obj : option json) (p q : string) :
  (∀ v, getByPath obj p = Some v →
        getByPath obj (p ++ String "."%char q) = getByPath (Some v) q)
  ∧ (∀ props key v, JsString.contains_char "."%char key = false →
       props !! key = Some v →
       getByPath (Some (JObject props)) key = Some v)
  ∧ (∀ v, getByPath obj p = Some v →
          typeof (Some v) ≠ "object" ∨ v = JNull →
          getByPath obj (p ++ String "."%char q) = None).
Proof.
  assert (Hcompose : getByPath obj (p ++ String "."%char q)
                     = getByPath (getByPath obj p) q).
  { unfold getByPath. now rewrite split_append, getByPath_loop_app. }
  split; [|split].
  - intros v Hv. now rewrite Hcompose, Hv.
  - intros props key v Hkey Hv. unfold getByPath.
    now rewrite split_without_separator.
  - intros v Hv Hscalar. rewrite Hcompose, Hv. now apply getByPath_scalar.
Qed.

(** The spec's examples, through the composition. *)
Lemma getByPath_composes_witness :
  getByPath
    (Some (JObject (<["data" := JObject (<["link" := JString "https://x/y.png"]> ∅)]> ∅)))
    "data.link"
  = Some (JString "https://x/y.png")
  ∧ getByPath (Some (JObject (<["a" := JNumber 1]> ∅))) "a.b" = None.
Proof.
  split.
  - destruct (getByPath_composes
                (Some (JObject (<["data" := JObject (<["link" := JString "https://x/y.png"]> ∅)]> ∅)))
                "data" "link") as (Hwalk & Hown & _).
    change "data.link" with ("data" ++ String "."%char "link").
    rewrite (Hwalk (JObject (<["link" := JString "https://x/y.png"]> ∅)));
      [|reflexivity].
    apply Hown; reflexivity.
  - destruct (getByPath_composes (Some (JObject (<["a" := JNumber 1]> ∅)))
                "a" "b") as (_ & _ & Hstop).
    change "a.b" with ("a" ++ String "."%char "b").
    apply (Hstop (JNumber 1)); [reflexivity | left; discriminate].
Defined.

(** X11: nothing is ever found in a body that is not an object or an
    array.  Whatever the path, [getByPath] gives [undefined] on [null], a
    boolean, a number or a string, the root itself included; so [upload]
    fails with the path message on every 2xx response whose body is such
    a value, a bare JSON string holding the URL included. *)
Theorem scalar_body_never_yields_url (settings : ImageUploaderSettings)
    (code : Z) (data : json) :
  typeof (Some data) ≠ "object" ∨ data = JNull →
  (∀ path, getByPath (Some data) path = None)
  ∧ ((200 <= code < 300)%Z →
     upload_result settings (Responded (mkResponse code (Decoded data)))
     = Failure (path_message (imageUrlPath settings))).
Proof.
  intros Hscalar.
  assert (Hnone : ∀ path, getByPath (Some data) path = None).
  { intros path. unfold getByPath.
    pose proof (split_nonempty "."%char path) as Hne.
    destruct (JsString.split "."%char path) as [|k keys]; [contradiction|].
    destruct Hscalar as [Htype| ->]; [|reflexivity].
    destruct data; simpl in Htype |- *; congruence. }
  split; [exact Hnone|].
  intros Hok. unfold upload_result, handle_response.
  cbn [status response_json]. rewrite status_test_ok by assumption.
  now rewrite extract_url_decoded, Hnone.
Qed.

Lemma scalar_body_never_yields_url_witness :
  upload_result sample_settings
    (Responded (mkResponse 200 (Decoded (JString "https://h/f.png"))))
  = Failure (path_message "url").
Proof.
  destruct (scalar_body_never_yields_url sample_settings 200
              (JString "https://h/f.png")) as [_ Hfail];
    [left; discriminate|].
  apply Hfail. lia.
Defined.

(* ===================================================================== *)
(** * The life of a placeholder *)
(* ===================================================================== *)

Lemma strip_prefix_extend (p s t rest : string) :
  JsString.strip_prefix p s = Some rest →
  JsString.strip_prefix p (s ++ t) = Some (rest ++ t).
Proof.
  revert s; induction p as [|x p IH]; intros s; simpl.
  - now intros [= ->].
  - destruct s as [|y s]; [discriminate|]. simpl.
    destruct (Ascii.eqb x y); [apply IH | discriminate].
Qed.

Lemma strip_prefix_none_extend (p s t : string) :
  JsString.strip_prefix p s = None →
  (String.length p <= String.length s)%nat →
  JsString.strip_prefix p (s ++ t) = None.
Proof.
  revert s; induction p as [|x p IH]; intros s; simpl; [discriminate|].
  destruct s as [|y s]; simpl; [lia|].
  destruct (Ascii.eqb x y); [|reflexivity].
  intros Hnone Hlen. apply IH; [assumption | lia].
Qed.

Lemma split_first_extend (p s t pre post : string) :
  JsString.split_first p s = Some (pre, post) →
  JsString.split_first p (s ++ t) = Some (pre, post ++ t).
Proof.
  revert pre; induction s as [|c s IH]; intros pre.
  - simpl. destruct (JsString.strip_prefix p "") as [rest|] eqn:Hp;
      [|discriminate].
    intros [= <- <-]. destruct p; [|discriminate].
    simpl in Hp. injection Hp as <-. simpl. destruct t; reflexivity.
  - cbn [JsString.split_first].
    destruct (JsString.strip_prefix p (String c s)) as [rest|] eqn:Hp.
    + intros [= <- <-].
      change (String c s ++ t) with (String c (s ++ t)).
      cbn [JsString.split_first].
      change (String c (s ++ t)) with (String c s ++ t).
      now rewrite (strip_prefix_extend _ _ t _ Hp).
    + destruct (JsString.split_first p s) as [[pre' post']|] eqn:Hs;
        [|discriminate].
      intros [= <- <-].
      change (String c s ++ t) with (String c (s ++ t)).
      cbn [JsString.split_first].
      change (String c (s ++ t)) with (String c s ++ t).
      rewrite strip_prefix_none_extend; [|assumption|].
      * now rewrite (IH pre' eq_refl).
      * apply split_first_sound in Hs. rewrite Hs. simpl.
        rewrite !append_length. lia.
Qed.

(** When the first occurrence of [p] in [pre ++ p] is the one at the end,
    it is also the first occurrence in [pre ++ p ++ post]. *)
Lemma split_first_inserted (p pre post : string) :
  indexOf p (pre ++ p) = Some (String.length pre) →
  JsString.split_first p (pre ++ p ++ post) = Some (pre, post).
Proof.
  unfold indexOf.
  destruct (JsString.split_first p (pre ++ p)) as [[pre0 post0]|] eqn:Hs;
    [|discriminate].
  intros [= Hlen]. pose proof (split_first_sound _ _ _ _ Hs) as Heq.
  assert (Hpost : post0 = "").
  { apply (f_equal String.length) in Heq. rewrite !append_length in Heq.
    destruct post0; [reflexivity | simpl in Heq; lia]. }
  subst post0. rewrite append_empty_r in Heq.
  apply append_inv_tail in Heq. subst pre0.
  rewrite <- append_assoc. now rewrite (split_first_extend _ _ post _ _ Hs).
Qed.

(** X12: the life of a placeholder, on any editor whose [getValue] gives
    back what [setValue] stored.  Once [uploadFile] has put its
    placeholder between the texts [pre] and [post], and provided no
    earlier occurrence of the same text precedes it, a failed upload gives
    the document back as it was around the selection ([pre ++ post], with
    one notice), and a successful one leaves the Markdown link exactly
    where the placeholder stood, when the link holds no dollar sign. *)
Theorem placeholder_life {E : Type} `{Editor E} (file : File) (w : World E)
    (pre post : string) :
  (∀ v e, getValue (setValue v e) = v) →
  getValue (replaceSelection (placeholder file) (editor w))
    = pre ++ placeholder file ++ post →
  indexOf (placeholder file) (pre ++ placeholder file)
    = Some (String.length pre) →
  (∀ message,
     let w' := uploadFile_finish file (Failure message)
                 (uploadFile_start file w) in
     getValue (editor w') = pre ++ post
     ∧ notices w' = (notices w ++ ["Image upload failed: " ++ message]%string)%list)
  ∧ (∀ url,
       JsString.contains_char JsString.DOLLAR (markdown file url) = false →
       getValue (editor (uploadFile_finish file (Success url)
                           (uploadFile_start file w)))
       = pre ++ markdown file url ++ post).
Proof.
  intros Hset Hinserted Hfirst.
  pose proof (split_first_inserted _ _ post Hfirst) as Hsplit.
  split.
  - intros message w'. unfold w', uploadFile_finish, uploadFile_start.
    cbn [editor with_editor notices]. rewrite Hset, Hinserted.
    unfold JsString.replace. rewrite Hsplit. now split.
  - intros url Hliteral. unfold uploadFile_finish, uploadFile_start.
    cbn [editor with_editor]. rewrite Hset, Hinserted.
    rewrite replace_literal by assumption. now rewrite Hsplit.
Qed.

Lemma placeholder_life_witness :
  let w := mkWorld (mkBuffer "See " " here.") [] [] [] 0 in
  getValue (editor (uploadFile_finish a_png (Failure "offline")
                      (uploadFile_start a_png w)))
    = "See  here."
  ∧ getValue (editor (uploadFile_finish a_png (Success "https://h/a.png")
                        (uploadFile_start a_png w)))
    = "See ![](https://h/a.png) here.".
Proof.
  intros w.
  destruct (placeholder_life a_png w "See " " here.") as [Hfail Hok].
  - intros v e. simpl. apply append_empty_r.
  - reflexivity.
  - reflexivity.
  - split.
    + exact (proj1 (Hfail "offline")).
    + exact (Hok "https://h/a.png" eq_refl).
Defined.

(* ===================================================================== *)
(** * A batch run to its end *)
(* ===================================================================== *)

Section BatchRun.

Context {E : Type} `{Editor E}.
Variable settings : ImageUploaderSettings.
Variables (now : File → N) (outcome : File → RequestOutcome).

Lemma after_upload_log (file : File) (w : World E) :
  requests (after_upload settings now outcome file w)
  = (requests w ++ [upload_request settings (now file) file])%list
  ∧ notices (after_upload settings now outcome file w)
    = (notices w ++ failure_notices settings outcome [file])%list
  ∧ attachments (after_upload settings now outcome file w) = attachments w
  ∧ open_modals (after_upload settings now outcome file w) = open_modals w.
Proof.
  unfold after_upload, uploadFile_finish, failure_notices. simpl.
  destruct (upload_result settings (outcome file)); simpl;
    rewrite ?app_nil_r; auto.
Qed.

Lemma run_image (file : File) (images pdfs : list File)
    (rs : list Resumption) (w : World E) :
  run settings (UploadingImage ReadingFile file images pdfs)
      (FileRead (now file) :: RequestSettled (outcome file) :: rs)
      (uploadFile_start file w)
  = run settings (snd (start_images settings images pdfs (after_upload settings now outcome file w)))
        rs (fst (start_images settings images pdfs (after_upload settings now outcome file w))).
Proof.
  cbn [run resume]. fold (after_upload settings now outcome file w).
  now destruct (start_images settings images pdfs (after_upload settings now outcome file w)).
Qed.

Lemma run_pdf (file : File) (pdfs : list File) (rs : list Resumption)
    (w : World E) :
  run settings (UploadingPdf ReadingFile file pdfs)
      (FileRead (now file) :: RequestSettled (outcome file) :: rs)
      (uploadFile_start file w)
  = run settings (snd (start_pdfs settings pdfs (after_upload settings now outcome file w)))
        rs (fst (start_pdfs settings pdfs (after_upload settings now outcome file w))).
Proof.
  cbn [run resume]. fold (after_upload settings now outcome file w).
  now destruct (start_pdfs settings pdfs (after_upload settings now outcome file w)).
Qed.

Lemma failure_notices_cons (file : File) (files : list File) :
  failure_notices settings outcome (file :: files)
  = (failure_notices settings outcome [file]
       ++ failure_notices settings outcome files)%list.
Proof.
  unfold failure_notices. simpl.
  now destruct (upload_result settings (outcome file)).
Qed.

Lemma run_pdfs_to_the_end (pdfs : list File) (w : World E) :
  pdfHandling settings = PdfUpload →
  ∃ w', run settings (snd (start_pdfs settings pdfs w))
            (answers now outcome pdfs) (fst (start_pdfs settings pdfs w))
        = Some (w', Finished)
        ∧ requests w'
          = (requests w
               ++ map (fun file => upload_request settings (now file) file)
                      pdfs)%list
        ∧ notices w'
          = (notices w ++ failure_notices settings outcome pdfs)%list
        ∧ attachments w' = attachments w
        ∧ open_modals w' = open_modals w.
Proof.
  intros Hupload. revert w; induction pdfs as [|pdf pdfs IH]; intros w.
  - exists w. simpl. rewrite !app_nil_r. auto.
  - unfold start_pdfs at 1 2. rewrite Hupload. cbn [fst snd answers flat_map app].
    fold (answers now outcome pdfs). rewrite run_pdf.
    destruct (IH (after_upload settings now outcome pdf w)) as (w' & Hrun & Hreq & Hnot & Hatt & Hmod).
    destruct (after_upload_log pdf w) as (Hreq1 & Hnot1 & Hatt1 & Hmod1).
    exists w'. split; [exact Hrun|].
    rewrite Hreq, Hnot, Hatt, Hmod, Hreq1, Hnot1, Hatt1, Hmod1.
    rewrite (failure_notices_cons pdf pdfs), <- !app_assoc. auto.
Qed.

End BatchRun.

(** X13: a batch answered by the host runs to its end, one file at a
    time.  With PDFs set to be uploaded, the chain started for the images
    and the PDFs of an event finishes once each file has been read and
    answered in turn; it has then issued exactly one request for each
    file, the images first and in the order of the event, none of them
    twice whatever the outcome; it has shown one notice for each failed
    upload and no other; and it has stored no attachment and left no modal
    open. *)
Theorem batch_runs_to_the_end {E : Type} `{Editor E}
    (settings : ImageUploaderSettings) (now : File → N)
    (outcome : File → RequestOutcome) (images pdfs : list File) (w : World E) :
  pdfHandling settings = PdfUpload →
  ∃ w', run settings (snd (start_images settings images pdfs w))
            (answers now outcome (images ++ pdfs))
            (fst (start_images settings images pdfs w))
        = Some (w', Finished)
        ∧ requests w'
          = (requests w
               ++ map (fun file => upload_request settings (now file) file)
                      (images ++ pdfs))%list
        ∧ notices w'
          = (notices w
               ++ failure_notices settings outcome (images ++ pdfs))%list
        ∧ attachments w' = attachments w
        ∧ open_modals w' = open_modals w.
Proof.
  intros Hupload. revert w; induction images as [|image images IH]; intros w.
  - now apply run_pdfs_to_the_end.
  - cbn [start_images fst snd app answers flat_map].
    fold (answers now outcome (images ++ pdfs)). rewrite run_image.
    destruct (IH (after_upload settings now outcome image w))
      as (w' & Hrun & Hreq & Hnot & Hatt & Hmod).
    destruct (after_upload_log settings now outcome image w)
      as (Hreq1 & Hnot1 & Hatt1 & Hmod1).
    exists w'. split; [exact Hrun|].
    rewrite Hreq, Hnot, Hatt, Hmod, Hreq1, Hnot1, Hatt1, Hmod1.
    rewrite (failure_notices_cons settings outcome image (images ++ pdfs)),
      <- !app_assoc.
    auto.
Qed.

Lemma batch_runs_to_the_end_witness :
  ∃ w', run sample_settings
          (snd (start_images sample_settings [a_png; b_png] [] initial_world))
          (answers (fun _ => 0%N)
                   (fun file => if String.eqb (name file) "a.png"
                                then Rejected "offline"
                                else Responded (mkResponse 200 (Decoded
                                       (JObject (<["url" := JString "https://h/b.png"]> ∅)))))
                   [a_png; b_png])
          (fst (start_images sample_settings [a_png; b_png] [] initial_world))
        = Some (w', Finished)
        ∧ length (requests w') = 2%nat
        ∧ notices w' = ["Image upload failed: offline"].
Proof.
  destruct (batch_runs_to_the_end sample_settings (fun _ => 0%N)
              (fun file => if String.eqb (name file) "a.png"
                           then Rejected "offline"
                           else Responded (mkResponse 200 (Decoded
                                  (JObject (<["url" := JString "https://h/b.png"]> ∅)))))
              [a_png; b_png] [] initial_world eq_refl)
    as (w' & Hrun & Hreq & Hnot & _).
  exists w'. split; [exact Hrun|]. split.
  - now rewrite Hreq.
  - now rewrite Hnot.
Defined.

(* ===================================================================== *)
(** * Saving and loading the settings *)
(* ===================================================================== *)

Lemma loadSettings_object (m : gmap string json) :
  (∀ field, is_Some (settings_object DEFAULT_SETTINGS !! field) →
            is_Some (m !! field)) →
  m !! "__proto__" = None →
  loadSettings (Some (JObject m)) = m.
Proof.
  intros Hfields Hproto. apply map_eq. intros field.
  destruct (decide (field = "__proto__")) as [->|Hfield];
    [now rewrite loadSettings_no_own_proto|].
  rewrite loadSettings_lookup by assumption. simpl.
  destruct (m !! field) as [v|] eqn:Hm; [reflexivity|].
  destruct (settings_object DEFAULT_SETTINGS !! field) as [d|] eqn:Hd;
    [|reflexivity].
  destruct (Hfields field) as [v Hv]; [eauto | congruence].
Qed.

Lemma settings_object_fields (s : ImageUploaderSettings) (field : string) :
  is_Some (settings_object DEFAULT_SETTINGS !! field) →
  is_Some (settings_object s !! field).
Proof.
  unfold settings_object. rewrite !lookup_insert. repeat case_decide; eauto.
Qed.

(** X14: what [saveSettings] hands to the host is what [loadSettings]
    makes of it again: settings that have their five fields come back
    unchanged, so loading the saved result of a load changes nothing. *)
Theorem settings_survive_save_and_load :
  (∀ s : ImageUploaderSettings,
     loadSettings (Some (JObject (settings_object s))) = settings_object s)
  ∧ (∀ data : option json,
       loadSettings (Some (JObject (loadSettings data))) = loadSettings data).
Proof.
  split.
  - intros s. apply loadSettings_object; [apply settings_object_fields|].
    reflexivity.
  - intros data.
    apply loadSettings_object; [|apply loadSettings_no_own_proto].
    intros field Hfield.
    assert (Hne : field ≠ "__proto__") by (intros ->; now destruct Hfield).
    rewrite loadSettings_lookup by assumption.
    destruct (own_enumerable data !! field); [eauto | assumption].
Qed.

(** X15: [loadSettings] keeps what it does not know: an own property of
    the persisted object that is not one of the five settings fields and
    is not named [__proto__] becomes an own property of the settings with
    the same value, and the settings have no own property of a name the
    persisted object has none of; they never get an own property named
    [__proto__], whatever the persisted object holds under that name. *)
Theorem loadSettings_keeps_unknown_fields (data : option json)
    (field : string) :
  ¬ In field SETTINGS_FIELDS →
  (field ≠ "__proto__" →
   loadSettings data !! field = own_enumerable data !! field)
  ∧ loadSettings data !! "__proto__" = None.
Proof.
  intros Hfield. split; [|apply loadSettings_no_own_proto].
  intros Hproto. rewrite loadSettings_lookup by assumption.
  destruct (own_enumerable data !! field); [reflexivity|].
  unfold settings_object. simpl in Hfield.
  rewrite !lookup_insert_ne by (intros <-; apply Hfield; auto 10).
  apply lookup_empty.
Qed.

Lemma loadSettings_keeps_unknown_fields_witness :
  loadSettings
    (Some (JObject (<["compress" := JBool true]> (<["apiEndpoint" := JString "https://h"]> ∅))))
    !! "compress"
  = Some (JBool true).
Proof.
  destruct (loadSettings_keeps_unknown_fields
              (Some (JObject (<["compress" := JBool true]> (<["apiEndpoint" := JString "https://h"]> ∅))))
              "compress") as [Hkept _].
  - simpl. intros [H|[H|[H|[H|[H|[]]]]]]; discriminate.
  - rewrite Hkept; [reflexivity | discriminate].
Defined.

(* ===================================================================== *)
(** * The boundary *)
(* ===================================================================== *)

Lemma toString36_loop_acc (fuel : nat) (n : N) (acc : string) :
  JsString.toString36_loop fuel n acc
  = JsString.toString36_loop fuel n "" ++ acc.
Proof.
  revert n acc; induction fuel as [|fuel IH]; intros n acc; [reflexivity|].
  simpl. destruct (n =? 0)%N; [reflexivity|].
  rewrite (IH _ (String _ acc)), (IH _ (String _ "")), append_assoc.
  reflexivity.
Qed.

Lemma parse36_loop_app (a b : string) (v : N) :
  parse36_loop (a ++ b) v = parse36_loop b (parse36_loop a v).
Proof. revert v; induction a as [|c a IH]; intros v; simpl; auto. Qed.

Lemma digit36_index_of_digit (d : N) :
  (d < 36)%N → digit36_index (JsString.digit36 d) JsString.DIGITS36 = d.
Proof.
  intros Hd.
  assert (Hall : forallb (fun i => (digit36_index
                                      (JsString.digit36 (N.of_nat i))
                                      JsString.DIGITS36 =? N.of_nat i)%N)
                         (seq 0 36) = true) by (vm_compute; reflexivity).
  rewrite forallb_forall in Hall.
  specialize (Hall (N.to_nat d)). rewrite N2Nat.id in Hall.
  apply N.eqb_eq, Hall, in_seq. lia.
Qed.

Lemma parse36_toString36_loop (fuel : nat) (n : N) :
  (n < 2 ^ N.of_nat fuel)%N →
  parse36_loop (JsString.toString36_loop fuel n "") 0 = n.
Proof.
  revert n; induction fuel as [|fuel IH]; intros n Hn.
  - simpl in *. lia.
  - cbn [JsString.toString36_loop].
    destruct (N.eqb_spec n 0) as [->|Hne]; [reflexivity|].
    rewrite toString36_loop_acc, parse36_loop_app.
    rewrite Nat2N.inj_succ, N.pow_succ_r' in Hn.
    rewrite IH.
    + cbn [parse36_loop]. rewrite digit36_index_of_digit.
      * rewrite N.mul_comm. symmetry. apply N.div_mod'.
      * apply N.mod_lt. lia.
    + apply N.Div0.div_lt_upper_bound. lia.
Qed.

(** X16: the digits [toString(36)] writes read back as the number, so
    that two clock readings give the same boundary only when they are
    equal: uploads started at different milliseconds never share a
    boundary. *)
Theorem boundary_determines_clock (n m : N) :
  parse36 (JsString.toString36 n) = n
  ∧ (Multipart.boundary n = Multipart.boundary m ↔ n = m).
Proof.
  assert (Hparse : ∀ k, parse36 (JsString.toString36 k) = k).
  { intros k. unfold parse36, JsString.toString36.
    destruct (N.eqb_spec k 0) as [->|Hk]; [reflexivity|].
    apply parse36_toString36_loop.
    rewrite Nat2N.inj_succ, N2Nat.id. apply N.log2_spec. lia. }
  split; [apply Hparse|]. split; [|now intros ->].
  unfold Multipart.boundary. intros Heq. apply append_inv_head in Heq.
  apply (f_equal parse36) in Heq. now rewrite !Hparse in Heq.
Qed.

(* ===================================================================== *)
(** * The handlers of [src/main.ts] *)
(* ===================================================================== *)

Lemma MainTs_placeholders (images : list File) (w : World Buffer) :
  let w' := fst (MainTs.uploadFiles images w) in
  before (editor w')
    = before (editor w) ++ String.concat "" (map placeholder images)
  ∧ after (editor w') = after (editor w)
  ∧ requests w' = requests w ∧ notices w' = notices w.
Proof.
  unfold MainTs.uploadFiles. cbn [fst].
  revert w; induction images as [|image images IH]; intros w.
  - simpl. now rewrite append_empty_r.
  - cbn [foldl map]. destruct (IH (uploadFile_start image w))
      as (Hbefore & Hafter & Hreq & Hnot).
    rewrite Hbefore, Hafter, Hreq, Hnot. simpl. rewrite append_assoc.
    repeat split. f_equal. f_equal.
    destruct images; simpl; [now rewrite append_empty_r | reflexivity].
Qed.

(** X17: the handlers of [src/main.ts] start every image of the event at
    once.  With a Markdown view active, the images of the event, and only
    they, are in flight when the handler returns, in the order of the
    event; the document holds all their placeholders, one after the other
    where the selection was; and no request has gone out yet. *)
Theorem main_ts_starts_every_image (files : list File) (w : World Buffer) :
  let started := snd (MainTsEvents.handler true (Some files) w) in
  files_in_flight (snd started) = List.filter isImageFile files
  ∧ getValue (editor (fst started))
    = before (editor w)
        ++ String.concat "" (map placeholder (List.filter isImageFile files))
        ++ after (editor w)
  ∧ requests (fst started) = requests w.
Proof.
  intros started.
  assert (Hstarted : started
                     = MainTs.uploadFiles (List.filter isImageFile files) w).
  { unfold started, MainTsEvents.handler.
    destruct (Nat.eqb (length files) 0) eqn:Hlen.
    { apply Nat.eqb_eq, length_zero_iff_nil in Hlen as ->. reflexivity. }
    destruct (Nat.eqb (length (List.filter isImageFile files)) 0) eqn:Hnone;
      [|reflexivity].
    apply Nat.eqb_eq, length_zero_iff_nil in Hnone. now rewrite Hnone. }
  rewrite Hstarted. split; [apply MainTs_dispatches_all|].
  destruct (MainTs_placeholders (List.filter isImageFile files) w)
    as (Hbefore & Hafter & Hreq & _).
  split; [|exact Hreq].
  cbn [getValue Buffer_editor]. rewrite Hbefore, Hafter.
  apply append_assoc.
Qed.

(* ===================================================================== *)
(** * PDFs the user is asked about *)
(* ===================================================================== *)

Lemma close_open_modal {E : Type} `{Editor E} (w : World E) :
  close_modal (open_modal w) = w.
Proof. now destruct w. Qed.

Lemma savePdfLocally_log {E : Type} `{Editor E} (file : File)
    (created_name : string) (w : World E) :
  requests (savePdfLocally_finish file created_name w) = requests w
  ∧ notices (savePdfLocally_finish file created_name w) = notices w
  ∧ attachments (savePdfLocally_finish file created_name w)
    = (attachments w ++ [(created_name, arrayBuffer file)])%list
  ∧ open_modals (savePdfLocally_finish file created_name w) = open_modals w.
Proof. repeat split. Qed.

(** X18: with "Ask each time", every PDF of an event goes exactly one
    way, the one the user chose for it, and the PDFs are dealt with one
    after the other.  Run to its end, the chain has issued a request for
    each PDF the user clicked "Upload to API" for, and for no other; it
    has stored in the vault, under the name the host gave, the bytes of
    each remaining PDF (saved locally, or whose modal was closed without
    a choice), and of no other; both in the order of the event; and every
    modal it opened is closed again. *)
Theorem asked_pdfs_go_one_way {E : Type} `{Editor E}
    (settings : ImageUploaderSettings)
    (choice : File → PdfUploadModal.Action) (now : File → N)
    (outcome : File → RequestOutcome) (stored : File → string)
    (pdfs : list File) (w : World E) :
  pdfHandling settings = PdfAsk →
  ∃ w', run settings (snd (start_pdfs settings pdfs w))
            (flat_map (asked_pdf_answers choice now outcome stored) pdfs)
            (fst (start_pdfs settings pdfs w))
        = Some (w', Finished)
        ∧ requests w'
          = (requests w
               ++ map (fun pdf => upload_request settings (now pdf) pdf)
                      (List.filter (wants_upload choice) pdfs))%list
        ∧ attachments w'
          = (attachments w
               ++ map (fun pdf => (stored pdf, arrayBuffer pdf))
                      (List.filter (fun pdf => negb (wants_upload choice pdf))
                                   pdfs))%list
        ∧ notices w'
          = (notices w
               ++ failure_notices settings outcome
                    (List.filter (wants_upload choice) pdfs))%list
        ∧ open_modals w' = open_modals w.
Proof.
  intros Hask. revert w; induction pdfs as [|pdf pdfs IH]; intros w.
  - exists w. simpl. rewrite !app_nil_r. auto.
  - unfold start_pdfs at 1 2. rewrite Hask.
    cbn [fst snd flat_map List.filter]. unfold asked_pdf_answers at 1.
    destruct (wants_upload choice pdf) eqn:Hwants; cbn [negb].
    + (* "Upload to API" *)
      assert (Hchoice : choice pdf = PdfUploadModal.ClickUpload).
      { unfold wants_upload in Hwants. now destruct (choice pdf). }
      rewrite Hchoice.
      cbn [app run resume askPdfUpload PdfUploadModal.act PdfUploadModal.close
           PdfUploadModal.onClose PdfUploadModal.resolve].
      rewrite close_open_modal.
      fold (after_upload settings now outcome pdf w).
      destruct (IH (after_upload settings now outcome pdf w))
        as (w' & Hrun & Hreq & Hatt & Hnot & Hmod).
      destruct (start_pdfs settings pdfs (after_upload settings now outcome pdf w))
        as [w1 c1].
      cbn [fst snd] in Hrun.
      destruct (after_upload_log settings now outcome pdf w)
        as (Hreq1 & Hnot1 & Hatt1 & Hmod1).
      exists w'. split; [exact Hrun|].
      rewrite (failure_notices_cons settings outcome pdf
                 (List.filter (wants_upload choice) pdfs)).
      rewrite Hreq, Hatt, Hnot, Hmod, Hreq1, Hnot1, Hatt1, Hmod1.
      cbn [map]. rewrite <- !app_assoc. auto.
    + (* "Save locally", or the modal closed without a choice *)
      assert (Hsave : resume settings (AskingPdf pdf pdfs)
                        (ModalAction (choice pdf)) (open_modal w)
                      = Some (w, SavingPdf pdf pdfs)).
      { unfold wants_upload in Hwants. cbn [resume].
        destruct (choice pdf); [discriminate| |];
          cbn [askPdfUpload PdfUploadModal.act PdfUploadModal.close
               PdfUploadModal.onClose PdfUploadModal.resolve];
          now rewrite close_open_modal. }
      cbn [app run]. rewrite Hsave. cbn [run resume].
      destruct (IH (savePdfLocally_finish pdf (stored pdf) w))
        as (w' & Hrun & Hreq & Hatt & Hnot & Hmod).
      destruct (start_pdfs settings pdfs
                  (savePdfLocally_finish pdf (stored pdf) w)) as [w1 c1].
      cbn [fst snd] in Hrun.
      destruct (savePdfLocally_log pdf (stored pdf) w)
        as (Hreq1 & Hnot1 & Hatt1 & Hmod1).
      exists w'. split; [exact Hrun|].
      rewrite Hreq, Hatt, Hnot, Hmod, Hreq1, Hnot1, Hatt1, Hmod1.
      cbn [map]. rewrite <- !app_assoc. auto.
Qed.

Lemma asked_pdfs_go_one_way_witness :
  let report := mkFile "report.pdf" "application/pdf" [Byte.x25] in
  let slides := mkFile "slides.pdf" "application/pdf" [Byte.x50] in
  let settings := mkSettings "https://h/upload" [] "file" "url" PdfAsk in
  ∃ w', run settings (snd (start_pdfs settings [report; slides] initial_world))
          (flat_map
             (asked_pdf_answers
                (fun pdf => if String.eqb (name pdf) "report.pdf"
                            then PdfUploadModal.ClickUpload
                            else PdfUploadModal.CloseWithoutChoice)
                (fun _ => 0%N) (fun _ => Rejected "offline") name)
             [report; slides])
          (fst (start_pdfs settings [report; slides] initial_world))
        = Some (w', Finished)
        ∧ length (requests w') = 1%nat
        ∧ attachments w' = [("slides.pdf", [Byte.x50])].
Proof.
  intros report slides settings.
  destruct (asked_pdfs_go_one_way settings
              (fun pdf => if String.eqb (name pdf) "report.pdf"
                          then PdfUploadModal.ClickUpload
                          else PdfUploadModal.CloseWithoutChoice)
              (fun _ => 0%N) (fun _ => Rejected "offline") name
              [report; slides] initial_world eq_refl)
    as (w' & Hrun & Hreq & Hatt & _).
  exists w'. split; [exact Hrun|]. split.
  - now rewrite Hreq.
  - now rewrite Hatt.
Defined.

(* ===================================================================== *)
(** * Arrays on the path *)
(* ===================================================================== *)

Lemma of_uint_acc_pos (d : Decimal.uint) (acc : positive) :
  Nat.of_uint_acc d (Pos.to_nat acc) = Pos.to_nat (Pos.of_uint_acc d acc).
Proof.
  revert acc;
    induction d as [|d IH|d IH|d IH|d IH|d IH|d IH|d IH|d IH|d IH|d IH];
    intros acc; cbn [Nat.of_uint_acc Pos.of_uint_acc]; [reflexivity|..];
    rewrite <- IH; f_equal; rewrite Nat.tail_mul_spec;
    rewrite ?Pos2Nat.inj_add, Pos2Nat.inj_mul;
    repeat match goal with
           | |- context [Pos.to_nat ?p] =>
               lazymatch p with
               | acc => fail
               | _ => let v := eval compute in (Pos.to_nat p) in
                      change (Pos.to_nat p) with v
               end
           end;
    lia.
Qed.

Lemma of_uint_nat_N (d : Decimal.uint) :
  Nat.of_uint d = N.to_nat (Pos.of_uint d).
Proof.
  unfold Nat.of_uint.
  induction d as [|d IH|d IH|d IH|d IH|d IH|d IH|d IH|d IH|d IH|d IH];
    [reflexivity | exact IH | ..];
    cbn [Nat.of_uint_acc Pos.of_uint];
    match goal with
    | |- _ = N.to_nat (N.pos ?q) =>
        change (N.to_nat (N.pos q)) with (Pos.to_nat q)
    end;
    rewrite <- of_uint_acc_pos; reflexivity.
Qed.

Lemma decimal_has_no_dot (d : Decimal.uint) :
  JsString.contains_char "."%char (NilEmpty.string_of_uint d) = false.
Proof. induction d; simpl; auto. Qed.

(** The decimal spelling of a natural number: it names that array index
    and holds no dot. *)
Lemma decimal_index (i : nat) :
  array_index (JsString.of_Z (Z.of_nat i)) = Some i
  ∧ JsString.contains_char "."%char (JsString.of_Z (Z.of_nat i)) = false.
Proof.
  unfold array_index, JsString.of_Z.
  destruct (Z.of_nat i) as [|p|p] eqn:Hi; [| |lia].
  - assert (i = 0%nat) as -> by lia. split; reflexivity.
  - cbn [Z.to_int NilZero.string_of_int].
    assert (Hnil : Pos.to_uint p ≠ Decimal.Nil).
    { intros Hnil. pose proof (DecimalPos.Unsigned.of_to p) as Hof.
      rewrite Hnil in Hof. discriminate. }
    assert (Hstr : NilZero.string_of_uint (Pos.to_uint p)
                   = NilEmpty.string_of_uint (Pos.to_uint p)).
    { unfold NilZero.string_of_uint. now destruct (Pos.to_uint p). }
    rewrite Hstr, NilEmpty.usu, of_uint_nat_N, DecimalPos.Unsigned.of_to.
    assert (Hp : N.to_nat (N.pos p) = i) by lia. rewrite Hp, Hi.
    cbn [Z.to_int NilZero.string_of_int]. rewrite Hstr, String.eqb_refl.
    split; [reflexivity | apply decimal_has_no_dot].
Qed.

(** X19: arrays are indexed by the path.  A key that is the decimal
    spelling of [i] selects element [i] of an array ([undefined] past its
    end), alone or as a segment of a longer path, and the key [length]
    gives the number of elements; so [0.url] reads the field [url] of the
    first element of an array body. *)
Theorem getByPath_indexes_arrays (items : list json) (i : nat)
    (rest : string) :
  let key := JsString.of_Z (Z.of_nat i) in
  getByPath (Some (JArray items)) key = items !! i
  ∧ getByPath (Some (JArray items)) (key ++ String "."%char rest)
    = getByPath (items !! i) rest
  ∧ getByPath (Some (JArray items)) "length"
    = Some (JNumber (Z.of_nat (length items))).
Proof.
  intros key. destruct (decimal_index i) as [Hindex Hdot]. fold key in Hindex, Hdot.
  assert (Hkey : String.eqb key "length" = false).
  { apply String.eqb_neq. intros Heq. rewrite Heq in Hindex.
    vm_compute in Hindex. discriminate. }
  assert (Hone : getByPath (Some (JArray items)) key = items !! i).
  { unfold getByPath. rewrite split_without_separator by assumption.
    cbn. now rewrite Hkey, Hindex. }
  split; [exact Hone|]. split; [|reflexivity].
  unfold getByPath in *. rewrite split_append, getByPath_loop_app.
  now rewrite Hone.
Qed.
